(** * devtools: labelled callables and signature checks

    A shallow embedding of [devtools.label] ([_classes.py], [_common.py])
    and of [devtools.testing.check_signature].

    Python objects are identified by their identity ([id(obj)]); the
    registry dictionary is keyed by that identity, which is how Python
    hashes and compares function objects.  Code that raises is modelled in
    a state-and-exception monad over the interpreter state that the
    library touches: the class-level instance cache of [_Registry], the
    [__data] dictionary of every instance, and the warnings channel. *)

From Stdlib Require Import ZArith String List Lia.
From stdpp Require Import base gmap strings list fin_maps.
From Equations Require Import Equations.

Local Open Scope Z_scope.
Local Open Scope string_scope.

(** ** Values, objects, exceptions *)

Definition ident := positive.
Definition ref := positive.
Definition cls := string.

Inductive value :=
| VNone
| VInt (z : Z)
| VStr (s : string)
| VType (s : string)
| VLabels (l : list string)
| VObj (i : ident).

#[global] Instance value_eq_dec : EqDecision value.
Proof. solve_decision. Defined.

(** What the library asks of an arbitrary object: its identity,
    [callable(obj)], whether [hash(obj)] succeeds, and [obj.__name__]
    when [hasattr(obj, '__name__')].  Only a hashable object can be a key
    of a dictionary. *)
Record pyobj := {
  oid : ident;
  is_callable : bool;
  is_hashable : bool;
  dunder_name : option string
}.

Inductive exn :=
| KeyError (arg : value)
| ValueError (arg : value)
| TypeError (msg : string)
| AttributeError (attr : string)
| AssertionError
| UserError (tag : string).

Definition is_KeyError (e : exn) : bool :=
  match e with KeyError _ => true | _ => false end.

Inductive res (A : Type) :=
| Ok (a : A)
| Raise (e : exn).
Arguments Ok {A} a.
Arguments Raise {A} e.

Inductive category := UserWarning | RegistryWarning.

Record warning := {
  message : string;
  w_category : category
}.

(** ** Interpreter state and the monad *)

Record pystate := {
  cache : gmap cls ref;              (* _Registry.__cache : class -> instance *)
  heap : gmap ref (gmap ident Z);    (* instance -> its __data, once assigned *)
  warned : list warning              (* warnings issued so far, oldest first *)
}.

Definition M (A : Type) : Type := pystate -> res A * pystate.

Definition ret {A} (a : A) : M A := fun st => (Ok a, st).

Definition raise {A} (e : exn) : M A := fun st => (Raise e, st).

Definition bind {A B} (m : M A) (k : A -> M B) : M B := fun st =>
  match m st with
  | (Ok a, st') => k a st'
  | (Raise e, st') => (Raise e, st')
  end.

Notation "'let*' x ':=' m 'in' k" := (bind m (fun x => k))
  (at level 10, x pattern, m at level 100, k at level 200).
Notation "m ';;' k" := (bind m (fun _ => k))
  (at level 100, k at level 200, right associativity).

Definition lift {A} (r : res A) : M A := fun st => (r, st).

(** [try: m  except KeyError: h] *)
Definition try_except_KeyError {A} (m : M A) (h : exn -> M A) : M A := fun st =>
  match m st with
  | (Raise e, st') => if is_KeyError e then h e st' else (Raise e, st')
  | ok => ok
  end.

Definition warn (msg : string) (c : category) : M unit := fun st =>
  (Ok tt, {| cache := cache st; heap := heap st;
             warned := (warned st ++ [{| message := msg; w_category := c |}])%list |}).

Definition get_cache (c : cls) : M (option ref) := fun st =>
  (Ok (cache st !! c), st).

Definition set_cache (c : cls) (r : ref) : M unit := fun st =>
  (Ok tt, {| cache := <[c := r]> (cache st); heap := heap st; warned := warned st |}).

(** [self.__data]: reading the slot of an instance that never had it
    assigned is an [AttributeError]. *)
Definition get_data (self : ref) : M (gmap ident Z) := fun st =>
  match heap st !! self with
  | Some d => (Ok d, st)
  | None => (Raise (AttributeError "_Registry__data"), st)
  end.

Definition set_data (self : ref) (d : gmap ident Z) : M unit := fun st =>
  (Ok tt, {| cache := cache st; heap := <[self := d]> (heap st); warned := warned st |}).

(** [obj.__name__] *)
Definition getattr_name (o : pyobj) : M string :=
  match dunder_name o with
  | Some nm => ret nm
  | None => raise (AttributeError "__name__")
  end.

(** ** _classes.py: the label enumeration *)

Inductive _LabelEnum := deprecated | pure | idempotent.

#[global] Instance _LabelEnum_eq_dec : EqDecision _LabelEnum.
Proof. solve_decision. Defined.

Definition label_value (l : _LabelEnum) : Z :=
  match l with deprecated => 0 | pure => 1 | idempotent => 2 end.

Definition label_name (l : _LabelEnum) : string :=
  match l with
  | deprecated => "deprecated"
  | pure => "pure"
  | idempotent => "idempotent"
  end.

(** Members in definition order. *)
Definition members : list _LabelEnum := [deprecated; pure; idempotent].

(** [_LabelEnum[name]]: lookup by name, [KeyError(name)] when absent. *)
Definition _LabelEnum_getitem (name : string) : res _LabelEnum :=
  match find (fun l => bool_decide (label_name l = name)) members with
  | Some l => Ok l
  | None => Raise (KeyError (VStr name))
  end.

(** [_LabelEnum(c)]: lookup by value, [ValueError] when no member has it. *)
Definition _LabelEnum_call (c : Z) : res _LabelEnum :=
  match find (fun l => bool_decide (label_value l = c)) members with
  | Some l => Ok l
  | None => Raise (ValueError (VInt c))
  end.

(** ** _classes.py: the registry *)

Definition Registry_cls : cls := "_Registry".

(** [object.__new__(cls, *args, **kwargs)], reached through [super()].
    The class overrides [__new__], so CPython's [object.__new__] rejects
    any extra argument with a [TypeError]; otherwise it allocates an
    instance whose slots are still unassigned.  The new reference is
    recorded in the heap by the assignment to [__data] that follows. *)
Definition object_new (c : cls) (args : list value)
    (kwargs : list (string * value)) : M ref := fun st =>
  match args, kwargs with
  | [], [] => (Ok (fresh (dom (heap st))), st)
  | _, _ =>
      (Raise (TypeError
         "object.__new__() takes exactly one argument (the type to instantiate)"),
       st)
  end.

Definition __new__ (c : cls) (args : list value)
    (kwargs : list (string * value)) : M ref :=
  let* cached := get_cache c in
  (match cached with
   | None =>
       let* inst := object_new c args kwargs in
       set_cache c inst;;
       set_data inst ∅
   | Some _ => ret tt
   end);;
  let* cached := get_cache c in
  match cached with
  | Some inst => ret inst
  | None => raise (KeyError (VStr c))
  end.

Definition __getitem__ (self : ref) (item : ident) : M Z :=
  let* d := get_data self in
  match d !! item with
  | Some n => ret n
  | None => raise (KeyError (VObj item))
  end.

Definition __setitem__ (self : ref) (clb : ident) (val : Z) : M unit :=
  let* d := get_data self in
  set_data self (<[clb := val]> d).

Definition __delitem__ (self : ref) (clb : ident) : M unit :=
  let* d := get_data self in
  match d !! clb with
  | Some _ => set_data self (delete clb d)
  | None => raise (KeyError (VObj clb))
  end.

Definition __len__ (self : ref) : M nat :=
  let* d := get_data self in
  ret (size d).

(** [key in reg], inherited from [collections.abc.Mapping]:
    [try: self[key]  except KeyError: return False  else: return True]. *)
Definition __contains__ (self : ref) (key : ident) : M bool :=
  try_except_KeyError (__getitem__ self key;; ret true) (fun _ => ret false).

(** The decoding loop of [get_info]:
    [while n > 0: if n % 2: labels.append(_LabelEnum(c).name); n >>= 1; c += 1]. *)
Equations? decode_loop (n c : Z) (labels : list string) : res (list string)
  by wf (Z.to_nat n) lt :=
  decode_loop n c labels with decide (n > 0) => {
    | right _ := Ok labels
    | left Hpos
        with (if decide (n mod 2 = 0) then Ok labels
              else match _LabelEnum_call c with
                   | Ok l => Ok (labels ++ [label_name l])%list
                   | Raise e => Raise e
                   end) => {
        | Raise e := Raise e
        | Ok labels' := decode_loop (Z.shiftr n 1) (c + 1) labels' } }.
Proof.
  rewrite Z.shiftr_div_pow2 by lia. change (2 ^ 1) with 2.
  apply Z2Nat.inj_lt; [apply Z.div_pos; lia | lia | apply Z.div_lt; lia].
Qed.

(** In [self.__data[clb]] the key is hashed first, and hashing an
    unhashable object raises [TypeError], which the [except KeyError]
    around the lookup does not catch.  An unhashable object is never a
    key of the dictionary, so this [TypeError] is the outcome of the
    lookup of an object that has no entry. *)
Definition get_info (self : ref) (clb : pyobj) : M (list string) :=
  if negb (is_callable clb) then
    raise (ValueError (VStr "clb must be callable."))
  else
    let* d := get_data self in
    match d !! oid clb with
    | None =>
        if is_hashable clb then
          match dunder_name clb with
          | Some nm => raise (KeyError (VStr ("Callable (" ++ nm ++ ") not in Registry.")))
          | None => raise (KeyError (VStr "Callable not in Registry."))
          end
        else raise (TypeError "unhashable type")
    | Some n => lift (decode_loop n 0 [])
    end.

(** ** _common.py: the decorator *)

(** A callable as the decorator sees it: the object, and what calling it
    with positional and keyword arguments does. *)
Definition behaviour : Type := list value -> list (string * value) -> M value.

Record callable := {
  obj : pyobj;
  call : behaviour
}.

(** [@wraps(clb)] on the new function [_inner]: a function object is
    hashable and always has a [__name__]; it is replaced by
    [clb.__name__] when [clb] has one. *)
Definition wraps (clb : pyobj) (inner : ident) : pyobj :=
  {| oid := inner;
     is_callable := true;
     is_hashable := true;
     dunder_name := Some (default "_inner" (dunder_name clb)) |}.

(** The closure [_inner], with its captured variables [reg], [clb] and
    [_inner] (its own identity) as parameters. *)
Definition _inner (reg : ref) (clb : behaviour) (self : ident) : behaviour :=
  fun args kwargs =>
  let* n := __getitem__ reg self in
  (if negb (Z.shiftr n (label_value deprecated) mod 2 =? 0)%Z
   then warn "Function is deprecated." RegistryWarning else ret tt);;
  let* n := __getitem__ reg self in
  (if negb (Z.shiftr n (label_value pure) mod 2 =? 0)%Z
   then warn "Function is pure." RegistryWarning else ret tt);;
  let* n := __getitem__ reg self in
  (if negb (Z.shiftr n (label_value idempotent) mod 2 =? 0)%Z
   then warn "Function is idempotent." RegistryWarning else ret tt);;
  clb args kwargs.

(** [sum(2**_LabelEnum[name] for name in names)], with the running total. *)
Fixpoint sum_bits (names : list string) (acc : Z) : res Z :=
  match names with
  | [] => Ok acc
  | name :: rest =>
      match _LabelEnum_getitem name with
      | Ok l => sum_bits rest (acc + 2 ^ label_value l)
      | Raise e => Raise e
      end
  end.

(** [_reg_callable(clb)] inside [register( *names )].  [inner] is the
    identity of the function object that the [def _inner] statement
    creates. *)
Definition _reg_callable (names : list string) (clb : callable)
    (inner : ident) : M callable :=
  let* reg := __new__ Registry_cls [] [] in
  let* present := __contains__ reg inner in
  (if present : bool then
     let* nm := getattr_name (obj clb) in
     warn ("Callable (" ++ nm ++ ") already registered.") UserWarning
   else ret tt);;
  let* v := lift (sum_bits names 0) in
  __setitem__ reg inner v;;
  ret {| obj := wraps (obj clb) inner;
         call := _inner reg (call clb) inner |}.

Definition register (names : list string) : callable -> ident -> M callable :=
  _reg_callable names.

(** ** _common.py: lookups *)

(** [getinfo(clb, val=None)]: an omitted [val] is [VNone]. *)
Definition getinfo (clb : pyobj) (val : value) : M value :=
  let* reg := __new__ Registry_cls [] [] in
  try_except_KeyError
    (let* labels := get_info reg clb in ret (VLabels labels))
    (fun e => match val with
              | VNone => raise e
              | _ => ret val
              end).

(** The body of the [for item in vs.values()] loop and its iteration.
    In [info[item.__name__] = reg.get_info(item)] the right-hand side is
    evaluated before the subscript. *)
Fixpoint getinfovars_loop (reg : ref) (items : list pyobj)
    (info : gmap string (list string)) : M (gmap string (list string)) :=
  match items with
  | [] => ret info
  | item :: rest =>
      let* info' :=
        (if is_callable item then
           try_except_KeyError
             (let* labels := get_info reg item in
              let* nm := getattr_name item in
              ret (<[nm := labels]> info))
             (fun _ => ret info)
         else ret info) in
      getinfovars_loop reg rest info'
  end.

(** A variables dictionary, in insertion order. *)
Definition getinfovars (vs : list (string * pyobj)) : M (gmap string (list string)) :=
  let* reg := __new__ Registry_cls [] [] in
  getinfovars_loop reg (map snd vs) ∅.

Record module := { vars : list (string * pyobj) }.

Definition getinfomodule (m : module) : M (gmap string (list string)) :=
  getinfovars (vars m).

Fixpoint getinfoiter_loop (reg : ref) (items : list pyobj)
    (info : gmap ident (list string)) : M (gmap ident (list string)) :=
  match items with
  | [] => ret info
  | item :: rest =>
      let* info' :=
        (if is_callable item then
           try_except_KeyError
             (let* labels := get_info reg item in
              ret (<[oid item := labels]> info))
             (fun _ => ret info)
         else ret info) in
      getinfoiter_loop reg rest info'
  end.

(** The result dictionary is keyed by the item itself, that is by its
    identity. *)
Definition getinfoiter (iterable : list pyobj) : M (gmap ident (list string)) :=
  let* reg := __new__ Registry_cls [] [] in
  getinfoiter_loop reg iterable ∅.

(** ** testing.py: check_signature *)

(** [inspect.FullArgSpec]. *)
Record FullArgSpec := {
  args : list string;
  varargs : option string;
  varkw : option string;
  defaults : option (list value);
  kwonlyargs : list string;
  kwonlydefaults : option (gmap string value);
  annotations : gmap string value
}.

(** A callable as [inspect.getfullargspec] and [typing.get_type_hints]
    see it.  [fn_spec] carries the raw [__annotations__] (strings when
    the defining module postpones their evaluation), [fn_hints] the
    evaluated ones. *)
Record function := {
  fn_spec : res FullArgSpec;
  fn_hints : res (gmap string value)
}.

Definition getfullargspec (clb : function) : res FullArgSpec := fn_spec clb.

Definition get_type_hints (clb : function) : res (gmap string value) := fn_hints clb.

Inductive attr :=
| a_annotations | a_args | a_varargs | a_varkw | a_defaults
| a_kwonlyargs | a_kwonlydefaults.

#[global] Instance attr_eq_dec : EqDecision attr.
Proof. solve_decision. Defined.

Inductive fieldval :=
| FDict (d : gmap string value)
| FNames (l : list string)
| FName (o : option string)
| FTuple (o : option (list value))
| FOptDict (o : option (gmap string value)).

#[global] Instance fieldval_eq_dec : EqDecision fieldval.
Proof. solve_decision. Defined.

(** [getattr(gfas, attr)] *)
Definition getattr (gfas : FullArgSpec) (a : attr) : fieldval :=
  match a with
  | a_annotations => FDict (annotations gfas)
  | a_args => FNames (args gfas)
  | a_varargs => FName (varargs gfas)
  | a_varkw => FName (varkw gfas)
  | a_defaults => FTuple (defaults gfas)
  | a_kwonlyargs => FNames (kwonlyargs gfas)
  | a_kwonlydefaults => FOptDict (kwonlydefaults gfas)
  end.

(** [assert cond]: no message is attached. *)
Definition assert (cond : bool) : res unit :=
  if cond then Ok tt else Raise AssertionError.

Fixpoint check_attrs (gfas : FullArgSpec) (locals : attr -> fieldval)
    (attrs : list attr) : res unit :=
  match attrs with
  | [] => Ok tt
  | a :: rest =>
      match assert (bool_decide (getattr gfas a = locals a)) with
      | Ok _ => check_attrs gfas locals rest
      | Raise e => Raise e
      end
  end.

(** The expected fields are the function's parameters; [locals()[attr]]
    reads them back by name, which [getattr expected] does here. *)
Definition check_signature (clb : function) (expected : FullArgSpec) : res unit :=
  match getfullargspec clb with
  | Raise e => Raise e
  | Ok gfas =>
      match get_type_hints clb with
      | Raise e => Raise e
      | Ok hints =>
          match assert (bool_decide (annotations expected = hints)) with
          | Raise e => Raise e
          | Ok _ =>
              check_attrs gfas (getattr expected)
                [a_annotations; a_args; a_varargs; a_varkw; a_defaults;
                 a_kwonlyargs; a_kwonlydefaults]
          end
      end
  end.

(** ** Vocabulary of the statements *)

(** Every cached instance has had its [__data] assigned: the invariant
    that [__new__] establishes and that every method keeps. *)
Definition wf (st : pystate) : Prop :=
  map_Forall (fun _ r => is_Some (heap st !! r)) (cache st).

#[global] Instance wf_dec st : Decision (wf st).
Proof. unfold wf. apply _. Defined.

(** The backing store of the [_Registry] singleton; empty before the
    first construction. *)
Definition the_registry (st : pystate) : gmap ident Z :=
  match cache st !! Registry_cls with
  | Some r => default ∅ (heap st !! r)
  | None => ∅
  end.

(** Bit [l] of a bitmask, as [_inner] tests it. *)
Definition has_label (n : Z) (l : _LabelEnum) : bool :=
  negb (Z.shiftr n (label_value l) mod 2 =? 0)%Z.

Definition label_message (l : _LabelEnum) : string :=
  match l with
  | deprecated => "Function is deprecated."
  | pure => "Function is pure."
  | idempotent => "Function is idempotent."
  end.

(** The warnings of one invocation under bitmask [n], in member order. *)
Definition label_warnings (n : Z) : list warning :=
  map (fun l => {| message := label_message l; w_category := RegistryWarning |})
      (filter (fun l => has_label n l = true) members).

Definition emit (ws : list warning) (st : pystate) : pystate :=
  {| cache := cache st; heap := heap st; warned := (warned st ++ ws)%list |}.

(** The bitmask in the words of the specification: the bitwise OR of the
    bit values of the given labels. *)
Definition mask_or (ls : list _LabelEnum) : Z :=
  foldr (fun l m => Z.lor (2 ^ label_value l) m) 0 ls.

(** A bitmask is valid when its set bits are label ordinals. *)
Definition valid_mask (n : Z) : Prop :=
  forall i, Z.testbit n i = true -> exists l, label_value l = i.

Definition already_registered (nm : string) : warning :=
  {| message := "Callable (" ++ nm ++ ") already registered.";
     w_category := UserWarning |}.

(** [reg = _Registry(); reg.get_info(clb)] *)
Definition describe (clb : pyobj) : M (list string) :=
  let* reg := __new__ Registry_cls [] [] in
  get_info reg clb.

(** The identity of the function object that [def _inner] creates at a
    decoration in state [st].  A new object is distinct from every
    object alive at that moment: the keys of the Registry, which its
    dictionary keeps alive, and the decorated callable. *)
Definition new_function (st : pystate) (clb : callable) : ident :=
  fresh ({[oid (obj clb)]} ∪ dom (the_registry st)).

(** [register( *names )(clb)] as a program runs it: [_reg_callable] with
    the identity of the function object it has just created. *)
Definition decorate (names : list string) (clb : callable) : M callable :=
  fun st => register names clb (new_function st clb) st.

(** The bitmask as [_reg_callable] computes it: the arithmetic sum. *)
Definition mask_sum (ls : list _LabelEnum) : Z :=
  foldr (fun l m => 2 ^ label_value l + m) 0 ls.

(** The bit value of [l] when [P] holds, else nothing. *)
Definition bit_if (P : Prop) `{Decision P} (l : _LabelEnum) : Z :=
  if decide P then 2 ^ label_value l else 0.

(** The labels a store holds for an item: its stored bitmask, decoded. *)
Definition labels_of (d : gmap ident Z) (item : pyobj) : option (list string) :=
  match d !! oid item with
  | Some n =>
      match decode_loop n 0 [] with
      | Ok labels => Some labels
      | Raise _ => None
      end
  | None => None
  end.

(** The Registry invariant: every stored bitmask uses bits 0 to 2 only. *)
Definition registry_valid (st : pystate) : Prop :=
  map_Forall (fun _ n => 0 <= n < 8) (the_registry st).

#[global] Instance registry_valid_dec st : Decision (registry_valid st).
Proof. unfold registry_valid. apply _. Defined.

(** One scan as a fold: a callable item with decodable labels and a key
    writes its entry; every other item leaves the result as it is. *)
Definition collect_step {K} `{Countable K} (key : pyobj -> option K)
    (d : gmap ident Z) (info : gmap K (list string)) (item : pyobj)
    : gmap K (list string) :=
  if is_callable item then
    match labels_of d item, key item with
    | Some labels, Some k => <[k := labels]> info
    | _, _ => info
    end
  else info.

Definition collect {K} `{Countable K} (key : pyobj -> option K)
    (d : gmap ident Z) (items : list pyobj) (info : gmap K (list string))
    : gmap K (list string) :=
  foldl (collect_step key d) info items.

(** The attribute names that [check_signature] iterates over. *)
Definition all_attrs : list attr :=
  [a_annotations; a_args; a_varargs; a_varkw; a_defaults;
   a_kwonlyargs; a_kwonlydefaults].

(** ** Example states and callables *)

Definition st_empty : pystate := {| cache := ∅; heap := ∅; warned := [] |}.

Definition plain (i : ident) (nm : string) : callable :=
  {| obj := {| oid := i; is_callable := true; is_hashable := true;
               dunder_name := Some nm |};
     call := fun _ _ => ret VNone |}.

(** A state in which identity 2 is registered as deprecated. *)
Definition st_one : pystate :=
  {| cache := {[Registry_cls := 1%positive]};
     heap := {[1%positive := {[2%positive := 1]}]};
     warned := [] |}.

(** The state left by decorating [plain 1 "f"] as pure in [st_empty]. *)
Definition st_pure : pystate :=
  {| cache := {[Registry_cls := 1%positive]};
     heap := {[1%positive := {[2%positive := 2]}]};
     warned := [] |}.

Definition inner_pure : callable :=
  {| obj := wraps (obj (plain 1%positive "f")) 2%positive;
     call := _inner 1%positive (call (plain 1%positive "f")) 2%positive |}.

(** Two different registered functions that are both named [f]. *)
Definition st_two : pystate :=
  {| cache := {[Registry_cls := 1%positive]};
     heap := {[1%positive := {[2%positive := 2; 3%positive := 1]}]};
     warned := [] |}.

(** A non-callable value and an unregistered function, for the scans. *)
Definition not_callable (i : ident) : pyobj :=
  {| oid := i; is_callable := false; is_hashable := true; dunder_name := None |}.

Definition scan_vars : list (string * pyobj) :=
  [("f", obj (plain 2%positive "f"));
   ("n", not_callable 8%positive);
   ("u", obj (plain 9%positive "u"))].

(** The signature of [f(a: int, b=1, *args, c, **kwargs)]. *)
Definition spec_f : FullArgSpec :=
  {| args := ["a"; "b"]; varargs := Some "args"; varkw := Some "kwargs";
     defaults := Some [VInt 1]; kwonlyargs := ["c"]; kwonlydefaults := None;
     annotations := {["a" := VType "int"]} |}.

Definition fun_f : function :=
  {| fn_spec := Ok spec_f; fn_hints := Ok {["a" := VType "int"]} |}.

Definition spec_f_wrong_args : FullArgSpec :=
  {| args := ["a"]; varargs := Some "args"; varkw := Some "kwargs";
     defaults := Some [VInt 1]; kwonlyargs := ["c"]; kwonlydefaults := None;
     annotations := {["a" := VType "int"]} |}.

Definition spec_f_wrong_varkw : FullArgSpec :=
  {| args := ["a"; "b"]; varargs := Some "args"; varkw := Some "kw";
     defaults := Some [VInt 1]; kwonlyargs := ["c"]; kwonlydefaults := None;
     annotations := {["a" := VType "int"]} |}.

(** ** testing.py: check_properties *)

(** The attribute protocol of the object under test.  Reading an
    attribute does not change the object; [setattr] and [delattr] return
    the object as they leave it, also when they raise. *)
Record attr_ops (O : Type) := {
  py_getattr : O -> string -> res value;
  py_setattr : O -> string -> value -> res unit * O;
  py_delattr : O -> string -> res unit * O
}.
Arguments py_getattr {O} _ _ _.
Arguments py_setattr {O} _ _ _ _.
Arguments py_delattr {O} _ _ _.

(** [hasattr(obj, name)]: [False] on [AttributeError], any other
    exception propagates. *)
Definition py_hasattr {O} (C : attr_ops O) (obj : O) (name : string) : res bool :=
  match py_getattr C obj name with
  | Ok _ => Ok true
  | Raise (AttributeError _) => Ok false
  | Raise e => Raise e
  end.

Definition res_bind {A B} (r : res A) (k : A -> res B) : res B :=
  match r with
  | Ok a => k a
  | Raise e => Raise e
  end.

(** The slots check.  A list of strings is the value [VLabels]. *)
Definition check_layout {O} (C : attr_ops O) (obj : O)
    (slots : option (list string)) : res unit :=
  match slots with
  | Some l =>
      res_bind (py_hasattr C obj "__slots__") (fun h =>
      res_bind (assert h) (fun _ =>
      res_bind (py_hasattr C obj "__dict__") (fun h' =>
      res_bind (assert (negb h')) (fun _ =>
      res_bind (py_getattr C obj "__slots__") (fun v =>
      assert (bool_decide (v = VLabels l)))))))
  | None =>
      res_bind (py_hasattr C obj "__slots__") (fun h =>
      res_bind (assert (negb h)) (fun _ =>
      res_bind (py_hasattr C obj "__dict__") (fun h' =>
      assert h')))
  end.

(** [except AttributeError: if prop in claimed: raise AssertionError] *)
Definition tolerate (r : res unit) (claimed : bool) : res unit :=
  match r with
  | Ok _ => Ok tt
  | Raise (AttributeError _) => if claimed then Raise AssertionError else Ok tt
  | Raise e => Raise e
  end.

(** The body of [for prop in props].  [p_] is the local variable of that
    name: unbound until a [getattr] has succeeded, and kept from one
    iteration to the next. *)
Fixpoint check_props_loop {O} (C : attr_ops O)
    (gettable_props settable_props dettable_props : list string)
    (props : list string) (obj : O) (p_ : option value) : res unit * O :=
  match props with
  | [] => (Ok tt, obj)
  | prop :: rest =>
      match res_bind (py_hasattr C obj prop) assert with
      | Raise e => (Raise e, obj)
      | Ok _ =>
          match
            match py_getattr C obj prop with
            | Ok v => Ok (Some v)
            | Raise (AttributeError a) =>
                if bool_decide (prop ∈ gettable_props)
                then Raise AssertionError else Ok p_
            | Raise e => Raise e
            end
          with
          | Raise e => (Raise e, obj)
          | Ok None => (Raise (UserError "UnboundLocalError"), obj)
          | Ok (Some v) =>
              let (r1, obj1) := py_setattr C obj prop v in
              match tolerate r1 (bool_decide (prop ∈ settable_props)) with
              | Raise e => (Raise e, obj1)
              | Ok _ =>
                  let (r2, obj2) := py_delattr C obj1 prop in
                  match tolerate r2 (bool_decide (prop ∈ dettable_props)) with
                  | Raise e => (Raise e, obj2)
                  | Ok _ =>
                      check_props_loop C gettable_props settable_props
                        dettable_props rest obj2 (Some v)
                  end
              end
          end
      end
  end.

(** [props] is the sequence in which the set
    [set(gettable_props + settable_props + dettable_props)] is iterated. *)
Definition check_properties {O} (C : attr_ops O) (obj : O)
    (gettable_props settable_props dettable_props : list string)
    (slots : option (list string)) (props : list string) : res unit * O :=
  match check_layout C obj slots with
  | Raise e => (Raise e, obj)
  | Ok _ =>
      check_props_loop C gettable_props settable_props dettable_props
        props obj None
  end.

(** An iteration order of the set of all claimed names. *)
Definition iteration_of (props g s d : list string) : Prop :=
  NoDup props /\ forall p, p ∈ props <-> p ∈ (g ++ s ++ d)%list.

(** Setting each name to its own value and deleting it, in order. *)
Definition set_and_delete {O} (C : attr_ops O) (obj : O) (prop : string) : O :=
  match py_getattr C obj prop with
  | Ok v => snd (py_delattr C (snd (py_setattr C obj prop v)) prop)
  | Raise _ => obj
  end.

(** An object whose attributes are plain instance attributes. *)
Definition plain_object : attr_ops (gmap string value) :=
  {| py_getattr := fun o name =>
       match o !! name with
       | Some v => Ok v
       | None => Raise (AttributeError name)
       end;
     py_setattr := fun o name v => (Ok tt, <[name := v]> o);
     py_delattr := fun o name =>
       match o !! name with
       | Some _ => (Ok tt, delete name o)
       | None => (Raise (AttributeError name), o)
       end |}.

(** ** States reached by operations *)

(** Distinct types never share an instance. *)
Definition cache_inj (st : pystate) : Prop :=
  forall c c' r, cache st !! c = Some r -> cache st !! c' = Some r -> c = c'.

Definition inv (st : pystate) : Prop := wf st /\ cache_inj st.

Inductive op :=
| Construct (c : cls) (args : list value) (kwargs : list (string * value))
| SetItem (self : ref) (clb : ident) (val : Z)
| DelItem (self : ref) (clb : ident)
| Decorate (names : list string) (clb : callable) (inner : ident)
| GetInfo (clb : pyobj) (val : value)
| ScanVars (vs : list (string * pyobj))
| ScanIter (items : list pyobj).

(** The state an operation leaves, whether it returns or raises. *)
Definition run_op (o : op) (st : pystate) : pystate :=
  match o with
  | Construct c a k => snd (__new__ c a k st)
  | SetItem self clb val => snd (__setitem__ self clb val st)
  | DelItem self clb => snd (__delitem__ self clb st)
  | Decorate names clb inner => snd (register names clb inner st)
  | GetInfo clb val => snd (getinfo clb val st)
  | ScanVars vs => snd (getinfovars vs st)
  | ScanIter items => snd (getinfoiter items st)
  end.

Definition run_ops (ops : list op) (st : pystate) : pystate :=
  foldl (fun st o => run_op o st) st ops.

(** ** More vocabulary and examples *)

(** [frame st st']: the cache is the same and no store has disappeared. *)
Definition frame (st st' : pystate) : Prop :=
  cache st' = cache st /\ forall r, is_Some (heap st !! r) -> is_Some (heap st' !! r).

(** An item that a scan can take: if it is callable, then either it is
    registered with a bitmask below 8, or it has no entry and is
    hashable, so that its lookup ends in the [KeyError] the scan
    catches. *)
Definition decodable (d : gmap ident Z) (item : pyobj) : Prop :=
  is_callable item = true ->
  match d !! oid item with
  | Some n => n < 8
  | None => is_hashable item = true
  end.

(** A callable instance of a class that defines [__eq__] without
    [__hash__]: Python sets its [__hash__] to [None]. *)
Definition unhashable_callable (i : ident) : pyobj :=
  {| oid := i; is_callable := true; is_hashable := false; dunder_name := None |}.

(** What a scan can end with: the [ValueError] of decoding a bitmask of
    8 or more, or the [TypeError] of looking up an unhashable callable. *)
Definition scan_error (e : exn) : Prop :=
  (exists c, 3 <= c /\ e = ValueError (VInt c)) \/ e = TypeError "unhashable type".

(** A state with the instance of [_Registry] and that of a subclass. *)
Definition st_sub : pystate :=
  {| cache := {[Registry_cls := 1%positive; "Sub" := 2%positive]};
     heap := {[1%positive := {[2%positive := 1]}; 2%positive := ∅]};
     warned := [] |}.

(** A registry with one bitmask out of range, under identity 6. *)
Definition st_bad : pystate :=
  {| cache := {[Registry_cls := 1%positive]};
     heap := {[1%positive := {[2%positive := 2; 6%positive := 8]}]};
     warned := [] |}.

(** A callable object without [__name__], as identity 6 of [st_nameless]. *)
Definition nameless (i : ident) : pyobj :=
  {| oid := i; is_callable := true; is_hashable := true; dunder_name := None |}.

Definition st_nameless : pystate :=
  {| cache := {[Registry_cls := 1%positive]};
     heap := {[1%positive := {[6%positive := 5]}]};
     warned := [] |}.

(** [f(a: int, b=1, *args, c, **kwargs)] in a module with postponed
    annotations: the raw annotation of [a] is the string ["int"]. *)
Definition spec_f_postponed : FullArgSpec :=
  {| args := ["a"; "b"]; varargs := Some "args"; varkw := Some "kwargs";
     defaults := Some [VInt 1]; kwonlyargs := ["c"]; kwonlydefaults := None;
     annotations := {["a" := VStr "int"]} |}.

Definition fun_f_postponed : function :=
  {| fn_spec := Ok spec_f_postponed; fn_hints := Ok {["a" := VType "int"]} |}.

(** An ordinary object with attributes [x] and [y], and one that has
    both a [__dict__] and [__slots__]. *)
Definition obj_xy : gmap string value :=
  {["__dict__" := VNone; "x" := VInt 1; "y" := VInt 2]}.

Definition obj_both : gmap string value :=
  {["__dict__" := VNone; "__slots__" := VLabels ["x"]; "x" := VInt 1]}.

(** ** The monad and the registry methods, step by step *)

Ltac run :=
  unfold bind, ret, raise, lift, get_cache, set_cache, get_data, set_data,
    try_except_KeyError, warn; simpl.

Lemma new_cached c a k st r :
  cache st !! c = Some r -> __new__ c a k st = (Ok r, st).
Proof. intros H. unfold __new__. run. rewrite H. simpl. now rewrite H. Qed.

Lemma new_first c st :
  cache st !! c = None ->
  __new__ c [] [] st =
    (Ok (fresh (dom (heap st))),
     {| cache := <[c := fresh (dom (heap st))]> (cache st);
        heap := <[fresh (dom (heap st)) := ∅]> (heap st);
        warned := warned st |}).
Proof.
  intros H. unfold __new__, object_new. run. rewrite H. simpl.
  now rewrite lookup_insert_eq.
Qed.

Lemma fresh_ref_unused st : heap st !! fresh (dom (heap st)) = None.
Proof. apply not_elem_of_dom, is_fresh. Qed.

Lemma wf_lookup st c r :
  wf st -> cache st !! c = Some r -> exists d, heap st !! r = Some d.
Proof. intros Hwf Hc. exact (Hwf c r Hc). Qed.

Lemma wf_set_data st r d :
  wf st ->
  wf {| cache := cache st; heap := <[r := d]> (heap st); warned := warned st |}.
Proof.
  intros Hwf c r' Hc. simpl in *.
  destruct (decide (r = r')) as [->|Hne].
  - rewrite lookup_insert_eq. eauto.
  - rewrite lookup_insert_ne by done. exact (Hwf c r' Hc).
Qed.

(** Obtaining the singleton: the state afterwards is well formed, the
    instance is cached, and its store is the registry as it was. *)
Lemma new_Registry st :
  wf st ->
  exists reg st',
    __new__ Registry_cls [] [] st = (Ok reg, st') /\
    wf st' /\
    cache st' !! Registry_cls = Some reg /\
    heap st' !! reg = Some (the_registry st) /\
    warned st' = warned st.
Proof.
  intros Hwf. destruct (cache st !! Registry_cls) as [r|] eqn:Hc.
  - exists r, st. rewrite (new_cached _ _ _ _ _ Hc).
    destruct (wf_lookup _ _ _ Hwf Hc) as [d Hd].
    unfold the_registry. rewrite Hc, Hd. auto.
  - eexists _, _. rewrite (new_first _ _ Hc). split; [reflexivity|].
    simpl. repeat split.
    + intros c r Hcr. simpl in *.
      destruct (decide (Registry_cls = c)) as [<-|Hne].
      * rewrite lookup_insert_eq in Hcr. injection Hcr as <-.
        rewrite lookup_insert_eq. eauto.
      * rewrite lookup_insert_ne in Hcr by done.
        destruct (Hwf c r Hcr) as [d Hd].
        destruct (decide (fresh (dom (heap st)) = r)) as [<-|Hne'].
        -- rewrite lookup_insert_eq. eauto.
        -- rewrite lookup_insert_ne by done. eauto.
    + apply lookup_insert_eq.
    + rewrite lookup_insert_eq. unfold the_registry. now rewrite Hc.
Qed.

Lemma getitem_run self item st d :
  heap st !! self = Some d ->
  __getitem__ self item st =
    match d !! item with
    | Some n => (Ok n, st)
    | None => (Raise (KeyError (VObj item)), st)
    end.
Proof. intros H. unfold __getitem__. run. rewrite H. now destruct (d !! item). Qed.

Lemma contains_run self key st d :
  heap st !! self = Some d ->
  __contains__ self key st = (Ok (bool_decide (is_Some (d !! key))), st).
Proof.
  intros H. unfold __contains__, try_except_KeyError, bind.
  rewrite (getitem_run _ _ _ _ H). destruct (d !! key) eqn:E; reflexivity.
Qed.

Lemma setitem_run self clb v st d :
  heap st !! self = Some d ->
  __setitem__ self clb v st =
    (Ok tt, {| cache := cache st; heap := <[self := <[clb := v]> d]> (heap st);
               warned := warned st |}).
Proof. intros H. unfold __setitem__. run. now rewrite H. Qed.

Lemma delitem_run self clb st d n :
  heap st !! self = Some d -> d !! clb = Some n ->
  __delitem__ self clb st =
    (Ok tt, {| cache := cache st; heap := <[self := delete clb d]> (heap st);
               warned := warned st |}).
Proof. intros H Hn. unfold __delitem__. run. now rewrite H, Hn. Qed.

Lemma get_info_registered self clb st d n :
  is_callable clb = true -> heap st !! self = Some d -> d !! oid clb = Some n ->
  get_info self clb st = (decode_loop n 0 [], st).
Proof. intros Hc H Hn. unfold get_info. rewrite Hc. run. now rewrite H, Hn. Qed.

Lemma get_info_unregistered self clb st d :
  is_callable clb = true -> is_hashable clb = true ->
  heap st !! self = Some d -> d !! oid clb = None ->
  exists msg, get_info self clb st = (Raise (KeyError (VStr msg)), st).
Proof.
  intros Hc Hhash H Hn. unfold get_info. rewrite Hc. run. rewrite H, Hn, Hhash.
  destruct (dunder_name clb); eauto.
Qed.

Lemma get_info_unhashable self clb st d :
  is_callable clb = true -> is_hashable clb = false ->
  heap st !! self = Some d -> d !! oid clb = None ->
  get_info self clb st = (Raise (TypeError "unhashable type"), st).
Proof.
  intros Hc Hhash H Hn. unfold get_info. rewrite Hc. run.
  now rewrite H, Hn, Hhash.
Qed.

(** ** Bitmask arithmetic over the three labels *)

Lemma getitem_label_name l : _LabelEnum_getitem (label_name l) = Ok l.
Proof. destruct l; reflexivity. Qed.

Lemma sum_bits_labels ls acc :
  sum_bits (map label_name ls) acc = Ok (acc + mask_sum ls).
Proof.
  revert acc. induction ls as [|l ls IH]; intros acc; simpl.
  - f_equal. lia.
  - rewrite getitem_label_name, IH. f_equal. lia.
Qed.

Lemma getitem_Ok name l : _LabelEnum_getitem name = Ok l -> label_name l = name.
Proof.
  unfold _LabelEnum_getitem, members. simpl.
  repeat case_bool_decide; intros Heq; try discriminate;
    injection Heq as <-; assumption.
Qed.

(** A name outside the enumeration makes the sum, hence the decoration,
    fail with the [KeyError] of [_LabelEnum[name]]. *)
Lemma sum_bits_unknown names acc :
  (exists nm, nm ∈ names /\ forall l, label_name l <> nm) ->
  exists nm, sum_bits names acc = Raise (KeyError (VStr nm)).
Proof.
  revert acc. induction names as [|name names IH]; intros acc (nm & Hin & Hnm).
  - inversion Hin.
  - simpl. destruct (_LabelEnum_getitem name) as [l|e] eqn:Hget.
    + apply IH. exists nm. split; [|assumption].
      apply elem_of_cons in Hin. destruct Hin as [->|Hin]; [|assumption].
      exfalso. exact (Hnm l (getitem_Ok _ _ Hget)).
    + unfold _LabelEnum_getitem in Hget.
      destruct (find _ members); [discriminate|]. injection Hget as <-. eauto.
Qed.

Lemma all_members (l : _LabelEnum) : l ∈ members.
Proof. destruct l; unfold members; repeat constructor. Qed.

Ltac split_members ls :=
  destruct (decide (deprecated ∈ ls)) as [?|?];
  destruct (decide (pure ∈ ls)) as [?|?];
  destruct (decide (idempotent ∈ ls)) as [?|?].

Ltac mem_contra :=
  exfalso;
  repeat match goal with
         | H : _ ∉ _ :: _ |- _ => apply not_elem_of_cons in H; destruct H as [? ?]
         end;
  repeat match goal with
         | H : _ ∈ _ :: _ |- _ =>
             apply elem_of_cons in H; destruct H as [?|?]; try discriminate
         end;
  try contradiction; congruence.

(** A mask built by OR has one canonical summand per label present. *)
Lemma mask_or_canon ls :
  mask_or ls =
    bit_if (deprecated ∈ ls) deprecated + bit_if (pure ∈ ls) pure
    + bit_if (idempotent ∈ ls) idempotent.
Proof.
  induction ls as [|l ls IH].
  - unfold bit_if. split_members (@nil _LabelEnum); try reflexivity;
      exfalso; eapply not_elem_of_nil; eassumption.
  - simpl. rewrite IH. unfold bit_if.
    destruct l; split_members ls;
      repeat match goal with
             | |- context [decide (?x ∈ ?y :: ls)] =>
                 destruct (decide (x ∈ y :: ls)) as [?|?]
             end;
      try reflexivity; mem_contra.
Qed.

Lemma mask_sum_or ls : NoDup ls -> mask_sum ls = mask_or ls.
Proof.
  induction 1 as [|l ls Hnotin Hnd IH]; [reflexivity|].
  simpl. rewrite IH, mask_or_canon. unfold bit_if.
  destruct l; split_members ls; try reflexivity; mem_contra.
Qed.

Lemma decode_mask_or ls :
  decode_loop (mask_or ls) 0 [] =
    Ok (map label_name (filter (fun l => l ∈ ls) members)).
Proof.
  rewrite mask_or_canon. unfold bit_if, members.
  rewrite !filter_cons, filter_nil.
  split_members ls; reflexivity.
Qed.

Lemma filter_members_perm ls :
  NoDup ls -> filter (fun l => l ∈ ls) members ≡ₚ ls.
Proof.
  intros Hnd. apply NoDup_Permutation; [|assumption|].
  - apply NoDup_filter. unfold members.
    repeat (apply NoDup_cons; split;
            [intros H; repeat (apply elem_of_cons in H; destruct H as [H|H];
                               [discriminate|]); inversion H|]).
    apply NoDup_nil_2.
  - intros l. rewrite list_elem_of_filter. pose proof (all_members l). tauto.
Qed.

(** ** Running the decorator *)

(** What one decoration does to the state: the singleton is looked up (or
    created), the "already registered" warning is issued when [inner] is
    already a key, and the entry of [inner] is written. *)
Lemma reg_callable_run names clb inner st v :
  wf st -> sum_bits names 0 = Ok v ->
  match the_registry st !! inner with
  | Some _ => is_Some (dunder_name (obj clb))
  | None => True
  end ->
  exists reg st1,
    _reg_callable names clb inner st =
      (Ok {| obj := wraps (obj clb) inner;
             call := _inner reg (call clb) inner |}, st1) /\
    wf st1 /\
    cache st1 !! Registry_cls = Some reg /\
    heap st1 !! reg = Some (<[inner := v]> (the_registry st)) /\
    warned st1 =
      (warned st ++
       match the_registry st !! inner, dunder_name (obj clb) with
       | Some _, Some nm => [already_registered nm]
       | _, _ => []
       end)%list.
Proof.
  intros Hwf Hsum Hname.
  destruct (new_Registry st Hwf) as (reg & st' & Hnew & Hwf' & Hc & Hh & Hw).
  unfold _reg_callable. unfold bind at 1. rewrite Hnew.
  unfold bind at 1. rewrite (contains_run _ _ _ _ Hh).
  destruct (the_registry st !! inner) as [old|] eqn:Hold.
  - destruct Hname as [nm Hnm]. rewrite Hnm.
    rewrite bool_decide_eq_true_2 by eauto.
    unfold getattr_name. rewrite Hnm. run. rewrite Hsum.
    unfold __setitem__. run. rewrite Hh.
    eexists _, _. split; [reflexivity|]. simpl.
    split; [|split; [assumption|split; [apply lookup_insert_eq|]]].
    + exact (wf_set_data
               {| cache := cache st'; heap := heap st';
                  warned := (warned st' ++ [_])%list |} reg _ Hwf').
    + rewrite Hw. reflexivity.
  - rewrite bool_decide_eq_false_2 by (intros [? ?]; discriminate).
    run. rewrite Hsum. unfold __setitem__. run. rewrite Hh.
    eexists _, _. split; [reflexivity|]. simpl.
    split; [|split; [assumption|split; [apply lookup_insert_eq|]]].
    + exact (wf_set_data st' reg _ Hwf').
    + rewrite Hw. destruct (dunder_name (obj clb)); now rewrite app_nil_r.
Qed.

(** Describing a registered callable decodes its stored bitmask. *)
Lemma describe_registered clb st reg d n :
  is_callable clb = true ->
  cache st !! Registry_cls = Some reg -> heap st !! reg = Some d ->
  d !! oid clb = Some n ->
  describe clb st = (decode_loop n 0 [], st).
Proof.
  intros Hcl Hc Hh Hn. unfold describe, bind.
  rewrite (new_cached _ _ _ _ _ Hc).
  apply (get_info_registered _ _ _ _ _ Hcl Hh Hn).
Qed.

(** C1: for every duplicate-free sequence of labels of the enumeration,
    given by name in any order, and every callable, decorating it with
    [register] and describing the result through [get_info] returns
    exactly the given names, in ascending bit order: deprecated, then
    pure, then idempotent.  ([inner], the identity of the new function
    object, is fresh.) *)
Theorem register_then_describe (ls : list _LabelEnum) (clb : callable)
    (inner : ident) (st : pystate) :
  wf st -> NoDup ls -> the_registry st !! inner = None ->
  exists f st1,
    register (map label_name ls) clb inner st = (Ok f, st1) /\
    oid (obj f) = inner /\
    describe (obj f) st1 =
      (Ok (map label_name (filter (fun l => l ∈ ls) members)), st1) /\
    map label_name (filter (fun l => l ∈ ls) members) ≡ₚ map label_name ls.
Proof.
  intros Hwf Hnd Hfresh.
  destruct (reg_callable_run (map label_name ls) clb inner st (mask_or ls) Hwf)
    as (reg & st1 & Hrun & Hwf1 & Hc & Hh & _).
  { rewrite sum_bits_labels, mask_sum_or by assumption. reflexivity. }
  { now rewrite Hfresh. }
  eexists _, st1. split; [exact Hrun|]. split; [reflexivity|]. split.
  - cbn [obj].
    rewrite (describe_registered (wraps (obj clb) inner) st1 reg _ (mask_or ls)
               eq_refl Hc Hh).
    + now rewrite decode_mask_or.
    + simpl. apply lookup_insert_eq.
  - apply fmap_Permutation, filter_members_perm, Hnd.
Qed.

Lemma register_then_describe_witness :
  exists f st1,
    register ["idempotent"; "deprecated"] (plain 1%positive "f") 2%positive st_empty = (Ok f, st1) /\
    oid (obj f) = 2%positive /\
    describe (obj f) st1 = (Ok ["deprecated"; "idempotent"], st1) /\
    ["deprecated"; "idempotent"] ≡ₚ ["idempotent"; "deprecated"].
Proof.
  apply (register_then_describe [idempotent; deprecated] (plain 1%positive "f")
           2%positive st_empty).
  - vm_compute. intros ? ? H. discriminate H.
  - repeat constructor; intros H; repeat (apply elem_of_cons in H; destruct H as [H|H]; [discriminate|]); inversion H.
  - reflexivity.
Defined.

Lemma the_registry_at st reg d :
  cache st !! Registry_cls = Some reg -> heap st !! reg = Some d ->
  the_registry st = d.
Proof. intros Hc Hh. unfold the_registry. now rewrite Hc, Hh. Qed.

(** C4: on a sequence that repeats a name the registered bitmask is the
    arithmetic sum of the bit values, not their bitwise OR: decorating
    with [("pure", "pure")] stores 4 where the OR is 2, and the callable
    is then described as idempotent. *)
Theorem register_repeated_name_adds :
  exists f st1,
    register ["pure"; "pure"] (plain 1%positive "f") 2%positive st_empty = (Ok f, st1) /\
    the_registry st1 !! 2%positive = Some 4 /\
    mask_or [pure; pure] = 2 /\
    describe (obj f) st1 = (Ok ["idempotent"], st1).
Proof.
  eexists _, _. split; [reflexivity|].
  split; [reflexivity|]. split; reflexivity.
Qed.

(** C5: decorating with [("idempotent", "idempotent")] stores the bitmask
    8, whose only set bit, bit 3, is no label ordinal, and describing the
    entry then fails with the [ValueError] of [_LabelEnum(3)]. *)
Theorem register_repeated_name_breaks_invariant :
  exists f st1,
    register ["idempotent"; "idempotent"] (plain 1%positive "f") 2%positive st_empty
      = (Ok f, st1) /\
    the_registry st1 !! 2%positive = Some 8 /\
    ~ valid_mask 8 /\
    describe (obj f) st1 = (Raise (ValueError (VInt 3)), st1).
Proof.
  eexists _, _. split; [reflexivity|].
  split; [reflexivity|]. split; [|reflexivity].
  intros Hv. destruct (Hv 3 eq_refl) as [l Hl]. destruct l; discriminate Hl.
Qed.



(** A run with two decorations: [f] is decorated as pure, and then once
    more as deprecated.  The second decoration issues no warning, and the
    Registry ends with two entries, the first still pure. *)
Lemma decorate_twice :
  exists f1 st1 f2 st2,
    decorate ["pure"] (plain 1%positive "f") st_empty = (Ok f1, st1) /\
    decorate ["deprecated"] (plain 1%positive "f") st1 = (Ok f2, st2) /\
    oid (obj f1) <> oid (obj f2) /\
    warned st2 = [] /\
    size (the_registry st2) = 2%nat /\
    describe (obj f1) st2 = (Ok ["pure"], st2) /\
    describe (obj f2) st2 = (Ok ["deprecated"], st2).
Proof.
  eexists _, _, _, _. split; [reflexivity|]. split; [reflexivity|].
  split; [vm_compute; discriminate|]. repeat split; vm_compute; reflexivity.
Qed.

(** ** Invoking the instrumented callable *)

Lemma emit_nil st : emit [] st = st.
Proof. destruct st. unfold emit. simpl. now rewrite app_nil_r. Qed.

Lemma emit_emit ws1 ws2 st : emit ws2 (emit ws1 st) = emit (ws1 ++ ws2) st.
Proof. unfold emit. simpl. now rewrite app_assoc. Qed.

Lemma getitem_some self item st d n :
  heap st !! self = Some d -> d !! item = Some n ->
  __getitem__ self item st = (Ok n, st).
Proof. intros H Hn. rewrite (getitem_run _ _ _ _ H). now rewrite Hn. Qed.

Lemma warn_if_run (b : bool) msg c st :
  (if b then warn msg c else ret tt) st =
    (Ok tt, emit (if b then [{| message := msg; w_category := c |}] else []) st).
Proof. destruct b; [reflexivity|]. now rewrite emit_nil. Qed.

Lemma label_warnings_unfold n :
  label_warnings n =
    ((if has_label n deprecated
      then [{| message := label_message deprecated; w_category := RegistryWarning |}]
      else []) ++
     (if has_label n pure
      then [{| message := label_message pure; w_category := RegistryWarning |}]
      else []) ++
     (if has_label n idempotent
      then [{| message := label_message idempotent; w_category := RegistryWarning |}]
      else []))%list.
Proof.
  unfold label_warnings, members. rewrite !filter_cons, filter_nil.
  destruct (has_label n deprecated), (has_label n pure), (has_label n idempotent);
    repeat (destruct (decide _) as [?|?]; try congruence); reflexivity.
Qed.

Lemma inner_registered reg clb self args kwargs st d n :
  heap st !! reg = Some d -> d !! self = Some n ->
  _inner reg clb self args kwargs st = clb args kwargs (emit (label_warnings n) st).
Proof.
  intros Hh Hn. unfold _inner.
  unfold bind at 1. rewrite (getitem_some _ _ _ _ _ Hh Hn).
  unfold bind at 1. rewrite warn_if_run.
  unfold bind at 1. rewrite (getitem_some _ _ (emit _ st) d n Hh Hn).
  unfold bind at 1. rewrite warn_if_run.
  unfold bind at 1. rewrite (getitem_some _ _ (emit _ (emit _ st)) d n Hh Hn).
  unfold bind at 1. rewrite warn_if_run.
  rewrite !emit_emit, label_warnings_unfold, <- ?app_assoc. reflexivity.
Qed.

Lemma inner_unregistered reg clb self args kwargs st d :
  heap st !! reg = Some d -> d !! self = None ->
  _inner reg clb self args kwargs st = (Raise (KeyError (VObj self)), st).
Proof.
  intros Hh Hn. unfold _inner, __getitem__. run. now rewrite Hh, Hn.
Qed.

(** Whatever [register] returns successfully is the closure over the
    cached singleton, and the entry of [inner] has been written. *)
Lemma reg_callable_inv names clb inner st f st1 :
  wf st -> _reg_callable names clb inner st = (Ok f, st1) ->
  exists reg v,
    sum_bits names 0 = Ok v /\
    f = {| obj := wraps (obj clb) inner; call := _inner reg (call clb) inner |} /\
    wf st1 /\
    cache st1 !! Registry_cls = Some reg /\
    heap st1 !! reg = Some (<[inner := v]> (the_registry st)).
Proof.
  intros Hwf Hrun.
  destruct (sum_bits names 0) as [v|e] eqn:Hsum;
    [destruct (decide (is_Some (the_registry st !! inner) ->
                       is_Some (dunder_name (obj clb)))) as [Hname|Hname]|].
  - destruct (reg_callable_run names clb inner st v Hwf Hsum)
      as (reg & st1' & Hrun' & Hwf1 & Hc & Hh & _).
    { destruct (the_registry st !! inner); eauto. }
    rewrite Hrun in Hrun'. injection Hrun' as -> ->. eauto 10.
  - exfalso.
    destruct (new_Registry st Hwf) as (reg & st' & Hnew & _ & _ & Hh & _).
    revert Hrun. unfold _reg_callable. unfold bind at 1. rewrite Hnew.
    unfold bind at 1. rewrite (contains_run _ _ _ _ Hh).
    destruct (the_registry st !! inner) as [old|] eqn:Hold.
    + destruct (dunder_name (obj clb)) as [nm|] eqn:Hnm.
      * exfalso. apply Hname. eauto.
      * rewrite bool_decide_eq_true_2 by eauto.
        unfold getattr_name. rewrite Hnm. run. discriminate.
    + exfalso. apply Hname. intros [? ?]. discriminate.
  - exfalso.
    destruct (new_Registry st Hwf) as (reg & st' & Hnew & _ & _ & Hh & _).
    revert Hrun. unfold _reg_callable. unfold bind at 1. rewrite Hnew.
    unfold bind at 1. rewrite (contains_run _ _ _ _ Hh).
    destruct (bool_decide _); run; [|rewrite Hsum; discriminate].
    unfold getattr_name. destruct (dunder_name (obj clb)); run;
      [rewrite Hsum|]; discriminate.
Qed.

Lemma label_message_inj l1 l2 : label_message l1 = label_message l2 -> l1 = l2.
Proof. destruct l1, l2; intros H; try reflexivity; discriminate H. Qed.

(** C2: invoking an instrumented callable produced by [register] issues,
    for each label whose bit is set in its registered bitmask, one
    warning with that label's fixed message (the messages are pairwise
    distinct), in the order deprecated, pure, idempotent, and then is the
    call of the original callable on the same positional and keyword
    arguments: same result, same exception.  Registered with no label,
    it issues no warning. *)
Theorem inner_warns_then_delegates (names : list string) (clb : callable)
    (inner : ident) (st st1 : pystate) (f : callable) :
  wf st -> register names clb inner st = (Ok f, st1) ->
  exists reg n,
    cache st1 !! Registry_cls = Some reg /\
    the_registry st1 !! inner = Some n /\
    (forall st2 d m args kwargs,
        heap st2 !! reg = Some d -> d !! inner = Some m ->
        call f args kwargs st2 =
          call clb args kwargs (emit (label_warnings m) st2)) /\
    (forall l1 l2, label_message l1 = label_message l2 -> l1 = l2) /\
    (names = [] ->
     n = 0 /\
     forall args kwargs, call f args kwargs st1 = call clb args kwargs st1).
Proof.
  intros Hwf Hrun.
  destruct (reg_callable_inv _ _ _ _ _ _ Hwf Hrun)
    as (reg & v & Hsum & -> & Hwf1 & Hc & Hh).
  exists reg, v. split; [assumption|]. split.
  { rewrite (the_registry_at _ _ _ Hc Hh). apply lookup_insert_eq. }
  split; [|split; [exact label_message_inj|]].
  - intros st2 d m args kwargs Hd Hm. cbn [call].
    apply (inner_registered _ _ _ _ _ _ _ _ Hd Hm).
  - intros ->. simpl in Hsum. injection Hsum as <-. split; [reflexivity|].
    intros args kwargs. cbn [call].
    rewrite (inner_registered _ _ _ args kwargs _ _ 0 Hh (lookup_insert_eq _ _ _)).
    change (label_warnings 0) with (@nil warning). now rewrite emit_nil.
Qed.

Lemma inner_warns_then_delegates_witness :
  exists reg n,
    cache st_pure !! Registry_cls = Some reg /\
    the_registry st_pure !! 2%positive = Some n /\
    (forall st2 d m args kwargs,
        heap st2 !! reg = Some d -> d !! 2%positive = Some m ->
        call inner_pure args kwargs st2 =
          call (plain 1%positive "f") args kwargs (emit (label_warnings m) st2)) /\
    (forall l1 l2, label_message l1 = label_message l2 -> l1 = l2) /\
    (["pure"] = [] ->
     n = 0 /\
     forall args kwargs,
       call inner_pure args kwargs st_pure =
         call (plain 1%positive "f") args kwargs st_pure).
Proof.
  apply (inner_warns_then_delegates ["pure"] (plain 1%positive "f") 2%positive
           st_empty st_pure inner_pure).
  - vm_compute. intros ? ? H. discriminate H.
  - reflexivity.
Defined.

(** C10: the instrumented callable consults the Registry at every
    invocation: its warnings follow the bitmask stored at that moment,
    not the one written by the decoration, and once its entry has been
    deleted an invocation fails with the [KeyError] of the registry
    lookup, in an unchanged state, whatever the original callable would
    have done. *)
Theorem inner_reads_registry_at_call (names : list string) (clb : callable)
    (inner : ident) (st st1 : pystate) (f : callable) :
  wf st -> register names clb inner st = (Ok f, st1) ->
  exists reg,
    cache st1 !! Registry_cls = Some reg /\
    (forall m args kwargs, exists st2,
        __setitem__ reg inner m st1 = (Ok tt, st2) /\
        call f args kwargs st2 =
          call clb args kwargs (emit (label_warnings m) st2)) /\
    (exists st2,
        __delitem__ reg inner st1 = (Ok tt, st2) /\
        the_registry st2 !! inner = None /\
        forall args kwargs,
          call f args kwargs st2 = (Raise (KeyError (VObj inner)), st2)) /\
    (forall st2 d args kwargs,
        heap st2 !! reg = Some d -> d !! inner = None ->
        call f args kwargs st2 = (Raise (KeyError (VObj inner)), st2)).
Proof.
  intros Hwf Hrun.
  destruct (reg_callable_inv _ _ _ _ _ _ Hwf Hrun)
    as (reg & v & Hsum & -> & Hwf1 & Hc & Hh).
  exists reg. split; [assumption|]. split; [|split].
  - intros m args kwargs. eexists. split; [apply (setitem_run _ _ _ _ _ Hh)|].
    cbn [call]. eapply inner_registered; simpl; apply lookup_insert_eq.
  - eexists. split; [apply (delitem_run _ _ _ _ v Hh), lookup_insert_eq|].
    split.
    + erewrite the_registry_at; [|exact Hc|simpl; apply lookup_insert_eq].
      apply lookup_delete_eq.
    + intros args kwargs. cbn [call].
      eapply inner_unregistered; [simpl; apply lookup_insert_eq|].
      apply lookup_delete_eq.
  - intros st2 d args kwargs Hd Hn. cbn [call].
    apply (inner_unregistered _ _ _ _ _ _ _ Hd Hn).
Qed.

Lemma inner_reads_registry_at_call_witness :
  exists reg,
    cache st_pure !! Registry_cls = Some reg /\
    (forall m args kwargs, exists st2,
        __setitem__ reg 2%positive m st_pure = (Ok tt, st2) /\
        call inner_pure args kwargs st2 =
          call (plain 1%positive "f") args kwargs (emit (label_warnings m) st2)) /\
    (exists st2,
        __delitem__ reg 2%positive st_pure = (Ok tt, st2) /\
        the_registry st2 !! 2%positive = None /\
        forall args kwargs,
          call inner_pure args kwargs st2 = (Raise (KeyError (VObj 2%positive)), st2)) /\
    (forall st2 d args kwargs,
        heap st2 !! reg = Some d -> d !! 2%positive = None ->
        call inner_pure args kwargs st2 = (Raise (KeyError (VObj 2%positive)), st2)).
Proof.
  apply (inner_reads_registry_at_call ["pure"] (plain 1%positive "f") 2%positive
           st_empty st_pure inner_pure).
  - vm_compute. intros ? ? H. discriminate H.
  - reflexivity.
Defined.

(** ** Construction of the singleton *)

(** C3: construction is not idempotent on a type that has no instance
    yet.  [__new__] takes [*args] and [**kwargs], documented as
    instantiation arguments, and forwards them to [object.__new__],
    which rejects them: [_Registry(1)] as the first construction raises
    [TypeError] and caches nothing, so a second call with other
    arguments raises again, and two calls with different arguments
    return no instance at all.  The same calls return the cached
    instance once an argument-free construction has taken place. *)
Theorem construction_first_call_rejects_arguments :
  __new__ Registry_cls [VInt 1] [] st_empty =
    (Raise (TypeError
       "object.__new__() takes exactly one argument (the type to instantiate)"),
     st_empty) /\
  __new__ Registry_cls [VInt 2] [("x", VNone)] st_empty =
    (Raise (TypeError
       "object.__new__() takes exactly one argument (the type to instantiate)"),
     st_empty) /\
  exists r st1,
    __new__ Registry_cls [] [] st_empty = (Ok r, st1) /\
    __new__ Registry_cls [VInt 1] [] st1 = (Ok r, st1) /\
    __new__ Registry_cls [VInt 2] [("x", VNone)] st1 = (Ok r, st1).
Proof.
  split; [reflexivity|]. split; [reflexivity|].
  eexists _, _. repeat split; reflexivity.
Qed.

(** X26: once a type has an instance, every construction call of
    that type, with any arguments, returns that same instance and leaves
    the state, hence its backing store, as it is; a type without an
    instance (a subclass, say) gets from an argument-free construction a
    new instance with an empty store of its own, different from the
    instance of every other type, whose cache entries and stores are
    untouched; and writing through one instance leaves the store of
    every other instance unchanged. *)
Theorem registry_construction (c : cls) (st : pystate) :
  wf st ->
  (forall r a k, cache st !! c = Some r -> __new__ c a k st = (Ok r, st)) /\
  (cache st !! c = None ->
   exists r st1,
     __new__ c [] [] st = (Ok r, st1) /\
     wf st1 /\
     cache st1 !! c = Some r /\
     heap st1 !! r = Some ∅ /\
     warned st1 = warned st /\
     forall c' r', cache st !! c' = Some r' ->
       r' <> r /\ cache st1 !! c' = Some r' /\ heap st1 !! r' = heap st !! r') /\
  (forall r r' d key v, heap st !! r = Some d -> r' <> r ->
   exists st1,
     __setitem__ r key v st = (Ok tt, st1) /\
     heap st1 !! r = Some (<[key := v]> d) /\
     heap st1 !! r' = heap st !! r' /\
     cache st1 = cache st).
Proof.
  intros Hwf. split; [|split].
  - intros r a k Hc. apply new_cached, Hc.
  - intros Hc. eexists _, _. rewrite (new_first _ _ Hc).
    split; [reflexivity|]. simpl.
    assert (Hsep : forall c' r', cache st !! c' = Some r' ->
                     r' <> fresh (dom (heap st))).
    { intros c' r' Hc' ->. destruct (wf_lookup _ _ _ Hwf Hc') as [d Hd].
      rewrite fresh_ref_unused in Hd. discriminate. }
    split; [|split; [apply lookup_insert_eq|split; [apply lookup_insert_eq|split;
      [reflexivity|]]]].
    + intros c' r' Hc'. simpl in *.
      destruct (decide (c = c')) as [<-|Hne].
      * rewrite lookup_insert_eq in Hc'. injection Hc' as <-.
        rewrite lookup_insert_eq. eauto.
      * rewrite lookup_insert_ne in Hc' by done.
        rewrite lookup_insert_ne by (intros Heq; symmetry in Heq; exact (Hsep _ _ Hc' Heq)).
        exact (Hwf c' r' Hc').
    + intros c' r' Hc'. pose proof (Hsep _ _ Hc') as Hne.
      split; [assumption|]. split.
      * rewrite lookup_insert_ne; [assumption|]. intros <-. congruence.
      * now rewrite lookup_insert_ne by congruence.
  - intros r r' d key v Hd Hne. eexists.
    rewrite (setitem_run _ _ _ _ _ Hd). split; [reflexivity|]. simpl.
    split; [apply lookup_insert_eq|]. split; [|reflexivity].
    now rewrite lookup_insert_ne by congruence.
Qed.

Lemma registry_construction_witness :
  __new__ Registry_cls [VInt 1] [("x", VNone)] st_one = (Ok 1%positive, st_one) /\
  (exists r st1,
     __new__ "Sub" [] [] st_one = (Ok r, st1) /\
     wf st1 /\
     cache st1 !! "Sub" = Some r /\
     heap st1 !! r = Some ∅ /\
     warned st1 = warned st_one /\
     forall c' r', cache st_one !! c' = Some r' ->
       r' <> r /\ cache st1 !! c' = Some r' /\ heap st1 !! r' = heap st_one !! r') /\
  (exists st1,
     __setitem__ 2%positive 5%positive 4 st_sub = (Ok tt, st1) /\
     heap st1 !! 2%positive = Some (<[5%positive := 4]> ∅) /\
     heap st1 !! 1%positive = heap st_sub !! 1%positive /\
     cache st1 = cache st_sub).
Proof.
  assert (Hone : wf st_one) by (apply (bool_decide_unpack _); vm_compute; exact I).
  assert (Hsub : wf st_sub) by (apply (bool_decide_unpack _); vm_compute; exact I).
  split; [|split].
  - apply (proj1 (registry_construction Registry_cls st_one Hone)).
    reflexivity.
  - apply (proj1 (proj2 (registry_construction "Sub" st_one Hone))).
    reflexivity.
  - apply (proj2 (proj2 (registry_construction "Sub" st_sub Hsub))
             2%positive 1%positive ∅ 5%positive 4).
    + reflexivity.
    + discriminate.
Defined.

(** ** Single lookup *)

Lemma enum_call_error c e : _LabelEnum_call c = Raise e -> is_KeyError e = false.
Proof.
  unfold _LabelEnum_call.
  destruct (find _ members); intros H; [discriminate|]. now injection H as <-.
Qed.

(** Decoding can only fail with the [ValueError] of [_LabelEnum(c)]. *)
Lemma decode_loop_error n c labels e :
  decode_loop n c labels = Raise e -> is_KeyError e = false.
Proof.
  funelim (decode_loop n c labels).
  - discriminate.
  - auto.
  - intros H. injection H as <-.
    destruct (decide (n mod 2 = 0)); [discriminate|].
    destruct (_LabelEnum_call c) eqn:E; [discriminate|].
    injection Heq as <-. exact (enum_call_error _ _ E).
Qed.

Lemma getinfo_run clb val st :
  wf st -> is_callable clb = true ->
  exists st',
    the_registry st' = the_registry st /\ warned st' = warned st /\
    getinfo clb val st =
      match the_registry st !! oid clb with
      | Some n =>
          (match decode_loop n 0 [] with
           | Ok labels => Ok (VLabels labels)
           | Raise e => Raise e
           end, st')
      | None =>
          if is_hashable clb then
            match val with
            | VNone =>
                (Raise (KeyError (VStr
                   match dunder_name clb with
                   | Some nm => "Callable (" ++ nm ++ ") not in Registry."
                   | None => "Callable not in Registry."
                   end)), st')
            | _ => (Ok val, st')
            end
          else (Raise (TypeError "unhashable type"), st')
      end.
Proof.
  intros Hwf Hcl.
  destruct (new_Registry st Hwf) as (reg & st' & Hnew & Hwf' & Hc & Hh & Hw).
  exists st'. split; [exact (the_registry_at _ _ _ Hc Hh)|]. split; [exact Hw|].
  unfold getinfo. unfold bind at 1. rewrite Hnew.
  unfold try_except_KeyError, bind.
  destruct (the_registry st !! oid clb) as [n|] eqn:Hn.
  - rewrite (get_info_registered _ _ _ _ _ Hcl Hh Hn).
    destruct (decode_loop n 0 []) as [labels|e] eqn:Hd; [reflexivity|].
    now rewrite (decode_loop_error _ _ _ _ Hd).
  - unfold get_info. rewrite Hcl. run. rewrite Hh, Hn.
    destruct (is_hashable clb); [|reflexivity].
    destruct (dunder_name clb); simpl; destruct val; reflexivity.
Qed.




(** ** Bulk lookups *)

Lemma decode_valid n :
  0 <= n < 8 ->
  decode_loop n 0 [] =
    Ok (map label_name (filter (fun l => has_label n l = true) members)).
Proof.
  intros Hn.
  assert (n = 0 \/ n = 1 \/ n = 2 \/ n = 3 \/ n = 4 \/ n = 5 \/ n = 6 \/ n = 7)
    as Hcases by lia.
  repeat (destruct Hcases as [->|Hcases]; [reflexivity|]). now subst.
Qed.

(** The two readings of a valid bitmask agree: its set bits are label
    ordinals exactly when it lies in 0..7. *)
Lemma valid_mask_range n : valid_mask n <-> 0 <= n < 8.
Proof.
  unfold valid_mask. split.
  - intros Hv. assert (Hnn : 0 <= n).
    { destruct (Z_lt_le_dec n 0) as [Hneg|]; [|assumption]. exfalso.
      apply Z.bits_iff_neg_ex in Hneg. destruct Hneg as [k Hk].
      destruct (Hv (Z.max k 3 + 1)) as [l Hl]; [apply Hk; lia|].
      destruct l; simpl in Hl; lia. }
    split; [assumption|].
    destruct (Z_lt_le_dec n 8) as [|Hge]; [assumption|exfalso].
    destruct (Hv (Z.log2 n)) as [l Hl]; [apply Z.bit_log2; lia|].
    assert (3 <= Z.log2 n) by (apply Z.log2_le_pow2; simpl; lia).
    destruct l; simpl in Hl; lia.
  - intros Hn i Hi.
    assert (0 <= i).
    { destruct (Z_lt_le_dec i 0) as [Hneg|]; [|assumption].
      rewrite Z.testbit_neg_r in Hi by assumption. discriminate. }
    assert (i < 3).
    { destruct (Z_lt_le_dec i 3) as [|Hge]; [assumption|exfalso].
      destruct (Z.eq_dec n 0) as [->|].
      - rewrite Z.bits_0 in Hi. discriminate.
      - rewrite Z.bits_above_log2 in Hi; [discriminate|lia|].
        assert (Z.log2 n < 3) by (apply Z.log2_lt_pow2; simpl; lia). lia. }
    assert (i = 0 \/ i = 1 \/ i = 2) as [-> | [-> | ->]] by lia;
      [exists deprecated|exists pure|exists idempotent]; reflexivity.
Qed.

Lemma labels_of_valid d item n :
  d !! oid item = Some n -> 0 <= n < 8 ->
  labels_of d item =
    Some (map label_name (filter (fun l => has_label n l = true) members)).
Proof. intros Hd Hn. unfold labels_of. now rewrite Hd, decode_valid. Qed.

Section Collect.
Context {K : Type} `{Countable K}.
Variable key : pyobj -> option K.
Variable d : gmap ident Z.

Lemma collect_cons item items info :
  collect key d (item :: items) info =
    collect key d items (collect_step key d info item).
Proof. reflexivity. Qed.

Lemma collect_step_lookup info item k :
  collect_step key d info item !! k =
    if is_callable item then
      match labels_of d item, key item with
      | Some labels, Some k' =>
          if decide (k' = k) then Some labels else info !! k
      | _, _ => info !! k
      end
    else info !! k.
Proof.
  unfold collect_step. destruct (is_callable item); [|reflexivity].
  destruct (labels_of d item); [|reflexivity].
  destruct (key item) as [k'|]; [|reflexivity].
  apply lookup_insert.
Qed.

(** Every entry of the result was there before or comes from a
    callable, registered item under its key. *)
Lemma collect_sound items info k labels :
  collect key d items info !! k = Some labels ->
  info !! k = Some labels \/
  exists item, item ∈ items /\ is_callable item = true /\
               key item = Some k /\ labels_of d item = Some labels.
Proof.
  revert info. induction items as [|item items IH]; intros info Hl.
  - now left.
  - rewrite collect_cons in Hl. destruct (IH _ Hl) as [Hi|(it & Hin & Hit)].
    + rewrite collect_step_lookup in Hi.
      destruct (is_callable item) eqn:Hc; [|now left].
      destruct (labels_of d item) as [ls|] eqn:Hls; [|now left].
      destruct (key item) as [k'|] eqn:Hk; [|now left].
      destruct (decide (k' = k)) as [->|]; [|now left].
      injection Hi as ->. right. exists item.
      split; [apply list_elem_of_here|auto].
    + right. exists it. split; [now apply list_elem_of_further|exact Hit].
Qed.

(** An entry survives the scan when every item writing under its key
    writes the same labels. *)
Lemma collect_keep items info k labels :
  info !! k = Some labels ->
  (forall item, item ∈ items -> is_callable item = true ->
     key item = Some k -> forall ls, labels_of d item = Some ls -> ls = labels) ->
  collect key d items info !! k = Some labels.
Proof.
  revert info. induction items as [|item items IH]; intros info Hi Hsame.
  - exact Hi.
  - rewrite collect_cons. apply IH.
    + rewrite collect_step_lookup.
      destruct (is_callable item) eqn:Hc; [|exact Hi].
      destruct (labels_of d item) as [ls|] eqn:Hls; [|exact Hi].
      destruct (key item) as [k'|] eqn:Hk; [|exact Hi].
      destruct (decide (k' = k)) as [->|]; [|exact Hi].
      f_equal. exact (Hsame item (list_elem_of_here _ _) Hc Hk ls Hls).
    + intros it Hin. apply Hsame. now apply list_elem_of_further.
Qed.

Lemma collect_dom items info k :
  is_Some (info !! k) -> is_Some (collect key d items info !! k).
Proof.
  revert info. induction items as [|item items IH]; intros info Hi.
  - exact Hi.
  - rewrite collect_cons. apply IH. rewrite collect_step_lookup.
    destruct (is_callable item); [|exact Hi].
    destruct (labels_of d item); [|exact Hi].
    destruct (key item) as [k'|]; [|exact Hi].
    destruct (decide (k' = k)); eauto.
Qed.

(** A callable, registered item with a key has an entry; the entry
    carries its labels when no item with other labels shares the key. *)
Lemma collect_complete items info item k labels :
  item ∈ items -> is_callable item = true -> key item = Some k ->
  labels_of d item = Some labels ->
  is_Some (collect key d items info !! k) /\
  ((forall item', item' ∈ items -> is_callable item' = true ->
      key item' = Some k -> forall ls, labels_of d item' = Some ls -> ls = labels) ->
   collect key d items info !! k = Some labels).
Proof.
  revert info. induction items as [|it items IH]; intros info Hin Hc Hk Hls.
  - inversion Hin.
  - rewrite collect_cons.
    assert (Hhead : it = item ->
              collect_step key d info it !! k = Some labels).
    { intros ->. rewrite collect_step_lookup, Hc, Hls, Hk.
      now rewrite decide_True. }
    apply elem_of_cons in Hin. destruct Hin as [<-|Hin].
    + split.
      * apply collect_dom. rewrite Hhead; eauto.
      * intros Hsame. apply collect_keep; [now apply Hhead|].
        intros it' Hin'. apply Hsame. now apply list_elem_of_further.
    + destruct (IH (collect_step key d info it) Hin Hc Hk Hls) as [Hdom Hval].
      split; [exact Hdom|]. intros Hsame. apply Hval.
      intros it' Hin'. apply Hsame. now apply list_elem_of_further.
Qed.
End Collect.

Lemma get_info_outcome reg d st item :
  heap st !! reg = Some d -> map_Forall (fun _ n => 0 <= n < 8) d ->
  is_callable item = true ->
  (d !! oid item = None -> is_hashable item = true) ->
  match labels_of d item with
  | Some labels => get_info reg item st = (Ok labels, st) /\ is_Some (d !! oid item)
  | None =>
      d !! oid item = None /\
      exists msg, get_info reg item st = (Raise (KeyError (VStr msg)), st)
  end.
Proof.
  intros Hh Hvalid Hc Hhash. destruct (d !! oid item) as [n|] eqn:Hn.
  - rewrite (labels_of_valid _ _ _ Hn (Hvalid _ _ Hn)).
    rewrite (get_info_registered _ _ _ _ _ Hc Hh Hn).
    rewrite (decode_valid _ (Hvalid _ _ Hn)). eauto.
  - unfold labels_of. rewrite Hn. split; [reflexivity|].
    apply (get_info_unregistered _ _ _ _ Hc (Hhash eq_refl) Hh Hn).
Qed.

Lemma getinfoiter_loop_run reg d st items info :
  heap st !! reg = Some d -> map_Forall (fun _ n => 0 <= n < 8) d ->
  (forall item, item ∈ items -> is_callable item = true ->
     d !! oid item = None -> is_hashable item = true) ->
  getinfoiter_loop reg items info st =
    (Ok (collect (fun o => Some (oid o)) d items info), st).
Proof.
  intros Hh Hvalid. revert info.
  induction items as [|item items IH]; intros info Hhash; [reflexivity|].
  assert (Hrest : forall it, it ∈ items -> is_callable it = true ->
            d !! oid it = None -> is_hashable it = true).
  { intros it Hin. apply Hhash. now apply list_elem_of_further. }
  rewrite collect_cons. cbn [getinfoiter_loop]. unfold bind at 1.
  unfold collect_step. destruct (is_callable item) eqn:Hc.
  - pose proof (get_info_outcome reg d st item Hh Hvalid Hc
                  (Hhash item (list_elem_of_here _ _) Hc)) as Hout.
    unfold try_except_KeyError, bind at 1.
    destruct (labels_of d item) as [ls|].
    + destruct Hout as [-> _]. simpl. now apply IH.
    + destruct Hout as (_ & msg & ->). simpl. now apply IH.
  - simpl. now apply IH.
Qed.

Lemma getinfovars_loop_run reg d st items info :
  heap st !! reg = Some d -> map_Forall (fun _ n => 0 <= n < 8) d ->
  (forall item, item ∈ items -> is_callable item = true ->
     is_Some (d !! oid item) -> is_Some (dunder_name item)) ->
  (forall item, item ∈ items -> is_callable item = true ->
     d !! oid item = None -> is_hashable item = true) ->
  getinfovars_loop reg items info st =
    (Ok (collect dunder_name d items info), st).
Proof.
  intros Hh Hvalid. revert info.
  induction items as [|item items IH]; intros info Hnamed Hhash; [reflexivity|].
  assert (Hrest : forall it, it ∈ items -> is_callable it = true ->
            is_Some (d !! oid it) -> is_Some (dunder_name it)).
  { intros it Hin. apply Hnamed. now apply list_elem_of_further. }
  assert (Hrest' : forall it, it ∈ items -> is_callable it = true ->
            d !! oid it = None -> is_hashable it = true).
  { intros it Hin. apply Hhash. now apply list_elem_of_further. }
  rewrite collect_cons. cbn [getinfovars_loop]. unfold bind at 1.
  unfold collect_step. destruct (is_callable item) eqn:Hc.
  - pose proof (get_info_outcome reg d st item Hh Hvalid Hc
                  (Hhash item (list_elem_of_here _ _) Hc)) as Hout.
    unfold try_except_KeyError, bind at 1.
    destruct (labels_of d item) as [ls|].
    + destruct Hout as [-> Hreg].
      destruct (Hnamed item (list_elem_of_here _ _) Hc Hreg) as [nm Hnm].
      unfold getattr_name. rewrite Hnm. simpl. now apply IH.
    + destruct Hout as (_ & msg & ->). simpl. now apply IH.
  - simpl. now apply IH.
Qed.

Lemma labels_of_same_oid d item item' :
  oid item' = oid item -> labels_of d item' = labels_of d item.
Proof. intros Heq. unfold labels_of. now rewrite Heq. Qed.

(** C8, as stated, fails when two registered callables of the mapping
    share a display name: the result has one entry for the two, with the
    labels of the later one, and none carrying the labels of the first. *)
Lemma getinfovars_display_name_collision :
  getinfovars [("a", obj (plain 2%positive "f")); ("b", obj (plain 3%positive "f"))]
      st_two
    = (Ok {["f" := ["deprecated"]]}, st_two) /\
  describe (obj (plain 2%positive "f")) st_two = (Ok ["pure"], st_two) /\
  describe (obj (plain 3%positive "f")) st_two = (Ok ["deprecated"], st_two).
Proof. repeat split; vm_compute; reflexivity. Qed.

(** C8, amended: in a Registry all of whose bitmasks use bits 0 to 2
    only, for a mapping whose registered callables have a [__name__],
    and when every scanned callable that has no entry is hashable (the
    lookup of an unhashable one raises a [TypeError] that the scan does
    not catch), the bulk lookups return without raising and leave the
    Registry and the warnings as they were.  [getinfoiter] has exactly
    one entry per registered callable item, keyed by the item and
    carrying its labels.  [getinfovars], and [getinfomodule] through it,
    have entries only for display names of registered callable values,
    each carrying the labels of such a value, one entry for every such
    display name; the entry carries the labels of a given value when no
    registered callable of another identity shares its display name.
    Unregistered callables and non-callables contribute nothing. *)
Theorem bulk_lookups (st : pystate) (vs : list (string * pyobj))
    (items : list pyobj) :
  wf st -> registry_valid st ->
  (forall item, item ∈ map snd vs -> is_callable item = true ->
     is_Some (the_registry st !! oid item) -> is_Some (dunder_name item)) ->
  (forall item, item ∈ (map snd vs ++ items)%list -> is_callable item = true ->
     the_registry st !! oid item = None -> is_hashable item = true) ->
  (exists info st',
     getinfovars vs st = (Ok info, st') /\
     getinfomodule {| vars := vs |} st = (Ok info, st') /\
     the_registry st' = the_registry st /\ warned st' = warned st /\
     (forall nm labels, info !! nm = Some labels ->
        exists item, item ∈ map snd vs /\ is_callable item = true /\
                     dunder_name item = Some nm /\
                     labels_of (the_registry st) item = Some labels) /\
     (forall item nm labels,
        item ∈ map snd vs -> is_callable item = true ->
        dunder_name item = Some nm ->
        labels_of (the_registry st) item = Some labels ->
        is_Some (info !! nm) /\
        ((forall item', item' ∈ map snd vs -> is_callable item' = true ->
            dunder_name item' = Some nm ->
            is_Some (the_registry st !! oid item') -> oid item' = oid item) ->
         info !! nm = Some labels))) /\
  (exists info st',
     getinfoiter items st = (Ok info, st') /\
     the_registry st' = the_registry st /\ warned st' = warned st /\
     (forall k labels, info !! k = Some labels <->
        exists item, item ∈ items /\ is_callable item = true /\
                     oid item = k /\
                     labels_of (the_registry st) item = Some labels)).
Proof.
  intros Hwf Hvalid Hnamed Hhash.
  destruct (new_Registry st Hwf) as (reg & st' & Hnew & Hwf' & Hc & Hh & Hw).
  pose proof (the_registry_at _ _ _ Hc Hh) as Hreg.
  split.
  - exists (collect dunder_name (the_registry st) (map snd vs) ∅), st'.
    assert (Hrun : getinfovars vs st =
                     (Ok (collect dunder_name (the_registry st) (map snd vs) ∅), st')).
    { unfold getinfovars. unfold bind at 1. rewrite Hnew.
      apply getinfovars_loop_run; try assumption.
      intros item Hin. apply Hhash, elem_of_app. now left. }
    split; [exact Hrun|]. split; [exact Hrun|].
    split; [exact Hreg|]. split; [exact Hw|]. split.
    + intros nm labels Hl.
      destruct (collect_sound _ _ _ _ _ _ Hl) as [He|Hitem]; [|exact Hitem].
      rewrite lookup_empty in He. discriminate.
    + intros item nm labels Hin Hcl Hnm Hls.
      destruct (collect_complete dunder_name (the_registry st) (map snd vs) ∅
                  item nm labels Hin Hcl Hnm Hls) as [Hdom Hval].
      split; [exact Hdom|]. intros Huniq. apply Hval.
      intros item' Hin' Hcl' Hnm' ls Hls'.
      assert (Hsome : is_Some (the_registry st !! oid item')).
      { unfold labels_of in Hls'. destruct (the_registry st !! oid item'); eauto.
        discriminate. }
      rewrite (labels_of_same_oid _ item item' (Huniq _ Hin' Hcl' Hnm' Hsome)) in Hls'.
      congruence.
  - exists (collect (fun o => Some (oid o)) (the_registry st) items ∅), st'.
    split.
    { unfold getinfoiter. unfold bind at 1. rewrite Hnew.
      apply getinfoiter_loop_run; try assumption.
      intros item Hin. apply Hhash, elem_of_app. now right. }
    split; [exact Hreg|]. split; [exact Hw|].
    intros k labels. split.
    + intros Hl.
      destruct (collect_sound _ _ _ _ _ _ Hl) as [He|(item & Hin & Hcl & Hk & Hls)].
      * rewrite lookup_empty in He. discriminate.
      * exists item. injection Hk as Hk. auto.
    + intros (item & Hin & Hcl & Hk & Hls).
      destruct (collect_complete (fun o => Some (oid o)) (the_registry st) items ∅
                  item k labels Hin Hcl (f_equal Some Hk) Hls) as [_ Hval].
      apply Hval. intros item' _ _ Hk' ls Hls'. injection Hk' as Hk'.
      rewrite (labels_of_same_oid _ item item') in Hls' by congruence.
      congruence.
Qed.

Lemma bulk_lookups_witness :
  (exists info st',
     getinfovars scan_vars st_two = (Ok info, st') /\
     getinfomodule {| vars := scan_vars |} st_two = (Ok info, st') /\
     the_registry st' = the_registry st_two /\ warned st' = warned st_two /\
     (forall nm labels, info !! nm = Some labels ->
        exists item, item ∈ map snd scan_vars /\ is_callable item = true /\
                     dunder_name item = Some nm /\
                     labels_of (the_registry st_two) item = Some labels) /\
     (forall item nm labels,
        item ∈ map snd scan_vars -> is_callable item = true ->
        dunder_name item = Some nm ->
        labels_of (the_registry st_two) item = Some labels ->
        is_Some (info !! nm) /\
        ((forall item', item' ∈ map snd scan_vars -> is_callable item' = true ->
            dunder_name item' = Some nm ->
            is_Some (the_registry st_two !! oid item') -> oid item' = oid item) ->
         info !! nm = Some labels))) /\
  (exists info st',
     getinfoiter (map snd scan_vars) st_two = (Ok info, st') /\
     the_registry st' = the_registry st_two /\ warned st' = warned st_two /\
     (forall k labels, info !! k = Some labels <->
        exists item, item ∈ map snd scan_vars /\ is_callable item = true /\
                     oid item = k /\
                     labels_of (the_registry st_two) item = Some labels)).
Proof.
  apply (bulk_lookups st_two scan_vars (map snd scan_vars)).
  - apply (bool_decide_unpack _). vm_compute. exact I.
  - apply (bool_decide_unpack _). vm_compute. exact I.
  - intros item Hin Hcl _. simpl in Hin.
    repeat (apply elem_of_cons in Hin; destruct Hin as [->|Hin];
            [simpl in *; first [discriminate | eauto]|]).
    inversion Hin.
  - intros item Hin _ _. simpl in Hin.
    repeat (apply elem_of_cons in Hin; destruct Hin as [->|Hin];
            [reflexivity|]).
    inversion Hin.
Defined.

(** ** check_signature *)

Lemma check_attrs_outcome gfas locals attrs :
  check_attrs gfas locals attrs =
    if bool_decide (Forall (fun a => getattr gfas a = locals a) attrs)
    then Ok tt else Raise AssertionError.
Proof.
  induction attrs as [|a attrs IH]; cbn [check_attrs].
  - now rewrite bool_decide_eq_true_2 by constructor.
  - unfold assert. rewrite IH.
    repeat case_bool_decide; try reflexivity; exfalso;
      rewrite Forall_cons in *; tauto.
Qed.

Lemma all_attrs_equal gfas expected :
  Forall (fun a => getattr gfas a = getattr expected a) all_attrs <->
  annotations expected = annotations gfas /\ args expected = args gfas /\
  varargs expected = varargs gfas /\ varkw expected = varkw gfas /\
  defaults expected = defaults gfas /\ kwonlyargs expected = kwonlyargs gfas /\
  kwonlydefaults expected = kwonlydefaults gfas.
Proof.
  unfold all_attrs. split.
  - intros Hall. repeat (apply Forall_cons in Hall; destruct Hall as [? Hall]).
    simpl in *. repeat split; congruence.
  - intros (H1 & H2 & H3 & H4 & H5 & H6 & H7).
    repeat (apply Forall_cons; split; [simpl; congruence|]). constructor.
Qed.

(** C9, as stated, fails on its last part: a mismatch is reported by a
    bare [AssertionError], the same one whichever field differs. *)
Lemma check_signature_failure_names_no_field :
  check_signature fun_f spec_f = Ok tt /\
  check_signature fun_f spec_f_wrong_args = Raise AssertionError /\
  check_signature fun_f spec_f_wrong_varkw = Raise AssertionError.
Proof. repeat split; vm_compute; reflexivity. Qed.

(** C9, amended: when introspection succeeds, [check_signature] passes
    only if every expected field equals the introspected one, the
    annotations being compared with the resolved type hints; for a
    callable whose raw annotations are the resolved ones it passes if and
    only if they are all equal; and every mismatch is reported by an
    [AssertionError] that carries no message and names no field. *)
Theorem check_signature_exact (clb : function) (expected gfas : FullArgSpec)
    (hints : gmap string value) :
  getfullargspec clb = Ok gfas -> get_type_hints clb = Ok hints ->
  (check_signature clb expected = Ok tt ->
   annotations expected = hints /\ args expected = args gfas /\
   varargs expected = varargs gfas /\ varkw expected = varkw gfas /\
   defaults expected = defaults gfas /\ kwonlyargs expected = kwonlyargs gfas /\
   kwonlydefaults expected = kwonlydefaults gfas) /\
  (annotations gfas = hints ->
   annotations expected = hints /\ args expected = args gfas /\
   varargs expected = varargs gfas /\ varkw expected = varkw gfas /\
   defaults expected = defaults gfas /\ kwonlyargs expected = kwonlyargs gfas /\
   kwonlydefaults expected = kwonlydefaults gfas ->
   check_signature clb expected = Ok tt) /\
  (check_signature clb expected = Ok tt \/
   check_signature clb expected = Raise AssertionError).
Proof.
  intros Hspec Hhints. unfold check_signature. rewrite Hspec, Hhints.
  unfold assert. fold all_attrs. rewrite check_attrs_outcome.
  destruct (decide (annotations expected = hints)) as [Ha|Ha].
  - rewrite (bool_decide_eq_true_2 _ Ha).
    destruct (decide (Forall (fun a => getattr gfas a = getattr expected a)
                        all_attrs)) as [Hall|Hall].
    + rewrite (bool_decide_eq_true_2 _ Hall).
      apply all_attrs_equal in Hall. split; [tauto|]. split; auto.
    + rewrite (bool_decide_eq_false_2 _ Hall).
      split; [discriminate|]. split; [|auto].
      intros Hraw Heq. exfalso. apply Hall, all_attrs_equal.
      split; [|tauto]. destruct Heq as [-> _]. now symmetry.
  - rewrite (bool_decide_eq_false_2 _ Ha).
    split; [discriminate|]. split; [|auto]. intros _ [Heq _]. contradiction.
Qed.

Lemma check_signature_exact_witness :
  (check_signature fun_f spec_f_wrong_args = Ok tt ->
   annotations spec_f_wrong_args = {["a" := VType "int"]} /\
   args spec_f_wrong_args = args spec_f /\
   varargs spec_f_wrong_args = varargs spec_f /\
   varkw spec_f_wrong_args = varkw spec_f /\
   defaults spec_f_wrong_args = defaults spec_f /\
   kwonlyargs spec_f_wrong_args = kwonlyargs spec_f /\
   kwonlydefaults spec_f_wrong_args = kwonlydefaults spec_f) /\
  (annotations spec_f = {["a" := VType "int"]} ->
   annotations spec_f_wrong_args = {["a" := VType "int"]} /\
   args spec_f_wrong_args = args spec_f /\
   varargs spec_f_wrong_args = varargs spec_f /\
   varkw spec_f_wrong_args = varkw spec_f /\
   defaults spec_f_wrong_args = defaults spec_f /\
   kwonlyargs spec_f_wrong_args = kwonlyargs spec_f /\
   kwonlydefaults spec_f_wrong_args = kwonlydefaults spec_f ->
   check_signature fun_f spec_f_wrong_args = Ok tt) /\
  (check_signature fun_f spec_f_wrong_args = Ok tt \/
   check_signature fun_f spec_f_wrong_args = Raise AssertionError).
Proof.
  apply (check_signature_exact fun_f spec_f_wrong_args spec_f
           {["a" := VType "int"]}); reflexivity.
Defined.

(** ** The registry as a mapping *)

Lemma len_run self st d :
  heap st !! self = Some d -> __len__ self st = (Ok (size d), st).
Proof. intros H. unfold __len__. run. now rewrite H. Qed.

Lemma state_eta st :
  {| cache := cache st; heap := heap st; warned := warned st |} = st.
Proof. now destruct st. Qed.

(** X1: writing an entry and reading it back gives the value written;
    the key is then contained, every other key reads as before, and the
    length grows by one exactly when the key is new. *)
Theorem setitem_then_getitem (self : ref) (clb : ident) (val : Z)
    (st : pystate) (d : gmap ident Z) :
  heap st !! self = Some d ->
  exists st1,
    __setitem__ self clb val st = (Ok tt, st1) /\
    __getitem__ self clb st1 = (Ok val, st1) /\
    __contains__ self clb st1 = (Ok true, st1) /\
    (forall k, k <> clb ->
       __getitem__ self k st1 = (fst (__getitem__ self k st), st1)) /\
    __len__ self st1 =
      (Ok (match d !! clb with Some _ => size d | None => S (size d) end), st1).
Proof.
  intros Hd. eexists. split; [apply (setitem_run _ _ _ _ _ Hd)|].
  set (st1 := {| cache := cache st; heap := _; warned := _ |}).
  assert (Hd1 : heap st1 !! self = Some (<[clb := val]> d))
    by apply lookup_insert_eq.
  split; [|split; [|split]].
  - rewrite (getitem_run _ _ _ _ Hd1). now rewrite lookup_insert_eq.
  - rewrite (contains_run _ _ _ _ Hd1). rewrite lookup_insert_eq.
    now rewrite bool_decide_eq_true_2 by eauto.
  - intros k Hk. rewrite (getitem_run _ _ _ _ Hd1), (getitem_run _ _ _ _ Hd).
    rewrite lookup_insert_ne by congruence. now destruct (d !! k).
  - rewrite (len_run _ _ _ Hd1). do 2 f_equal.
    destruct (d !! clb) as [n|] eqn:Hn.
    + rewrite <- (insert_id d clb n Hn) at 2.
      rewrite <- (insert_delete_eq d clb n), <- (insert_delete_eq d clb val).
      rewrite !map_size_insert_None by apply lookup_delete_eq. reflexivity.
    + now apply map_size_insert_None.
Qed.

Lemma setitem_then_getitem_witness :
  exists st1,
    __setitem__ 1%positive 5%positive 3 st_one = (Ok tt, st1) /\
    __getitem__ 1%positive 5%positive st1 = (Ok 3, st1) /\
    __contains__ 1%positive 5%positive st1 = (Ok true, st1) /\
    (forall k, k <> 5%positive ->
       __getitem__ 1%positive k st1 = (fst (__getitem__ 1%positive k st_one), st1)) /\
    __len__ 1%positive st1 =
      (Ok (match ({[2%positive := 1]} : gmap ident Z) !! 5%positive with
           | Some _ => size ({[2%positive := 1]} : gmap ident Z)
           | None => S (size ({[2%positive := 1]} : gmap ident Z))
           end), st1).
Proof.
  apply (setitem_then_getitem 1%positive 5%positive 3 st_one {[2%positive := 1]}).
  reflexivity.
Defined.

(** X2: deleting a key that is absent raises [KeyError(key)] and leaves
    the state as it is; deleting a present key removes that key only:
    reading it raises [KeyError], it is no longer contained, every other
    key reads as before and the length drops by one. *)
Theorem delitem_behaviour (self : ref) (clb : ident) (st : pystate)
    (d : gmap ident Z) :
  heap st !! self = Some d ->
  (d !! clb = None ->
   __delitem__ self clb st = (Raise (KeyError (VObj clb)), st)) /\
  (is_Some (d !! clb) ->
   exists st1,
     __delitem__ self clb st = (Ok tt, st1) /\
     __getitem__ self clb st1 = (Raise (KeyError (VObj clb)), st1) /\
     __contains__ self clb st1 = (Ok false, st1) /\
     (forall k, k <> clb ->
        __getitem__ self k st1 = (fst (__getitem__ self k st), st1)) /\
     exists m, __len__ self st1 = (Ok m, st1) /\ size d = S m).
Proof.
  intros Hd. split.
  - intros Hn. unfold __delitem__. run. now rewrite Hd, Hn.
  - intros [n Hn]. eexists. split; [apply (delitem_run _ _ _ _ n Hd Hn)|].
    set (st1 := {| cache := cache st; heap := _; warned := _ |}).
    assert (Hd1 : heap st1 !! self = Some (delete clb d))
      by apply lookup_insert_eq.
    split; [|split; [|split]].
    + rewrite (getitem_run _ _ _ _ Hd1). now rewrite lookup_delete_eq.
    + rewrite (contains_run _ _ _ _ Hd1). rewrite lookup_delete_eq.
      rewrite bool_decide_eq_false_2; [reflexivity|]. now intros [? ?].
    + intros k Hk. rewrite (getitem_run _ _ _ _ Hd1), (getitem_run _ _ _ _ Hd).
      rewrite lookup_delete_ne by congruence. now destruct (d !! k).
    + exists (size (delete clb d)). split; [apply (len_run _ _ _ Hd1)|].
      rewrite <- (insert_id d clb n Hn) at 1.
      rewrite <- (insert_delete_eq d clb n).
      now rewrite map_size_insert_None by apply lookup_delete_eq.
Qed.

Lemma delitem_behaviour_witness :
  (({[2%positive := 1]} : gmap ident Z) !! 2%positive = None ->
   __delitem__ 1%positive 2%positive st_one
     = (Raise (KeyError (VObj 2%positive)), st_one)) /\
  (is_Some (({[2%positive := 1]} : gmap ident Z) !! 2%positive) ->
   exists st1,
     __delitem__ 1%positive 2%positive st_one = (Ok tt, st1) /\
     __getitem__ 1%positive 2%positive st1
       = (Raise (KeyError (VObj 2%positive)), st1) /\
     __contains__ 1%positive 2%positive st1 = (Ok false, st1) /\
     (forall k, k <> 2%positive ->
        __getitem__ 1%positive k st1
          = (fst (__getitem__ 1%positive k st_one), st1)) /\
     exists m, __len__ 1%positive st1 = (Ok m, st1) /\
               size ({[2%positive := 1]} : gmap ident Z) = S m).
Proof.
  apply (delitem_behaviour 1%positive 2%positive st_one {[2%positive := 1]}).
  reflexivity.
Defined.

(** X3: writes compose as in a dictionary.  A second write to the same
    key replaces the first, and writing a new key and deleting it again
    restores the state exactly. *)
Theorem setitem_composition (self : ref) (clb : ident) (v1 v2 : Z)
    (st : pystate) (d : gmap ident Z) :
  heap st !! self = Some d ->
  (__setitem__ self clb v1;; __setitem__ self clb v2) st
    = __setitem__ self clb v2 st /\
  (d !! clb = None ->
   (__setitem__ self clb v1;; __delitem__ self clb) st = (Ok tt, st)).
Proof.
  intros Hd. split.
  - unfold bind. rewrite !(setitem_run _ _ _ _ _ Hd).
    erewrite setitem_run by (simpl; apply lookup_insert_eq). simpl.
    now rewrite !insert_insert_eq.
  - intros Hn. unfold bind. rewrite (setitem_run _ _ _ _ _ Hd).
    erewrite delitem_run;
      [|simpl; apply lookup_insert_eq|apply lookup_insert_eq].
    simpl. rewrite insert_insert_eq, delete_insert_eq, delete_id by assumption.
    rewrite (insert_id _ _ _ Hd). now rewrite state_eta.
Qed.

Lemma setitem_composition_witness :
  (__setitem__ 1%positive 5%positive 3;; __setitem__ 1%positive 5%positive 4) st_one
    = __setitem__ 1%positive 5%positive 4 st_one /\
  (({[2%positive := 1]} : gmap ident Z) !! 5%positive = None ->
   (__setitem__ 1%positive 5%positive 3;; __delitem__ 1%positive 5%positive) st_one
     = (Ok tt, st_one)).
Proof.
  apply (setitem_composition 1%positive 5%positive 3 4 st_one {[2%positive := 1]}).
  reflexivity.
Defined.

(** X4: a construction call with any positional or keyword argument, on
    a type that has no instance yet, raises [TypeError] and leaves the
    state, hence the cache, as it is: repeating the call fails again. *)
Theorem new_with_arguments_raises (c : cls) (args : list value)
    (kwargs : list (string * value)) (st : pystate) :
  cache st !! c = None -> args <> [] \/ kwargs <> [] ->
  exists msg, __new__ c args kwargs st = (Raise (TypeError msg), st).
Proof.
  intros Hc Hargs. unfold __new__, object_new. run. rewrite Hc. simpl.
  destruct args as [|a args]; [destruct kwargs as [|k kwargs]|]; simpl; eauto.
  destruct Hargs; congruence.
Qed.

Lemma new_with_arguments_raises_witness :
  exists msg,
    __new__ "Sub" [] [("size", VInt 3)] st_one = (Raise (TypeError msg), st_one).
Proof.
  apply (new_with_arguments_raises "Sub" [] [("size", VInt 3)] st_one).
  - reflexivity.
  - right. discriminate.
Defined.

(** ** Invariants of the interpreter state *)

Lemma frame_refl st : frame st st.
Proof. split; auto. Qed.

Lemma frame_inv st st' : inv st -> frame st st' -> inv st'.
Proof.
  intros [Hwf Hinj] [Hc Hh]. split.
  - intros c r Hcr. rewrite Hc in Hcr. apply Hh. exact (Hwf c r Hcr).
  - intros c c' r. rewrite Hc. apply Hinj.
Qed.

Lemma frame_set_data st r d ws :
  is_Some (heap st !! r) ->
  frame st {| cache := cache st; heap := <[r := d]> (heap st); warned := ws |}.
Proof.
  intros Hr. split; [reflexivity|]. intros r' Hr'. simpl.
  destruct (decide (r = r')) as [->|Hne].
  - rewrite lookup_insert_eq. eauto.
  - now rewrite lookup_insert_ne.
Qed.

Lemma frame_warned st ws :
  frame st {| cache := cache st; heap := heap st; warned := ws |}.
Proof. split; auto. Qed.

Lemma setitem_frame self clb val st : frame st (snd (__setitem__ self clb val st)).
Proof.
  unfold __setitem__. run. destruct (heap st !! self) as [d|] eqn:Hd; simpl.
  - apply frame_set_data. eauto.
  - apply frame_refl.
Qed.

Lemma delitem_frame self clb st : frame st (snd (__delitem__ self clb st)).
Proof.
  unfold __delitem__. run. destruct (heap st !! self) as [d|] eqn:Hd; simpl.
  - destruct (d !! clb); simpl; [apply frame_set_data; eauto|apply frame_refl].
  - apply frame_refl.
Qed.

Lemma new_inv c a k st : inv st -> inv (snd (__new__ c a k st)).
Proof.
  intros [Hwf Hinj]. destruct (cache st !! c) as [r|] eqn:Hc.
  - rewrite (new_cached _ _ _ _ _ Hc). now split.
  - destruct a as [|v a]; [destruct k as [|kv k]|].
    + rewrite (new_first _ _ Hc). simpl.
      assert (Hsep : forall c' r', cache st !! c' = Some r' ->
                       r' <> fresh (dom (heap st))).
      { intros c' r' Hc' ->. destruct (wf_lookup _ _ _ Hwf Hc') as [d Hd].
        rewrite fresh_ref_unused in Hd. discriminate. }
      split.
      * intros c' r' Hc'. simpl in *.
        destruct (decide (c = c')) as [<-|Hne].
        -- rewrite lookup_insert_eq in Hc'. injection Hc' as <-.
           rewrite lookup_insert_eq. eauto.
        -- rewrite lookup_insert_ne in Hc' by done.
           rewrite lookup_insert_ne
             by (intros Heq; symmetry in Heq; exact (Hsep _ _ Hc' Heq)).
           exact (Hwf c' r' Hc').
      * intros c1 c2 r. simpl. rewrite !lookup_insert.
        destruct (decide (c = c1)) as [<-|], (decide (c = c2)) as [<-|];
          intros H1 H2; try reflexivity.
        -- injection H1 as <-. exfalso. exact (Hsep _ _ H2 eq_refl).
        -- injection H2 as <-. exfalso. exact (Hsep _ _ H1 eq_refl).
        -- exact (Hinj _ _ _ H1 H2).
    + unfold __new__, object_new. run. rewrite Hc. simpl. now split.
    + unfold __new__, object_new. run. rewrite Hc. simpl. now split.
Qed.

(** [get_info] only reads. *)
Lemma get_info_state self clb st : snd (get_info self clb st) = st.
Proof.
  unfold get_info. destruct (is_callable clb); simpl; [|reflexivity].
  run. destruct (heap st !! self) as [d|]; simpl; [|reflexivity].
  destruct (d !! oid clb); [reflexivity|].
  now destruct (is_hashable clb), (dunder_name clb).
Qed.

Lemma getinfoiter_loop_state reg items info st :
  snd (getinfoiter_loop reg items info st) = st.
Proof.
  revert info. induction items as [|item items IH]; intros info; [reflexivity|].
  cbn [getinfoiter_loop]. unfold bind at 1.
  destruct (is_callable item); [|apply IH].
  unfold try_except_KeyError, bind at 1.
  pose proof (get_info_state reg item st) as Hst.
  destruct (get_info reg item st) as [[ls|e] s]; simpl in Hst; subst s; simpl.
  - apply IH.
  - destruct (is_KeyError e); simpl; [apply IH|reflexivity].
Qed.

Lemma getinfovars_loop_state reg items info st :
  snd (getinfovars_loop reg items info st) = st.
Proof.
  revert info. induction items as [|item items IH]; intros info; [reflexivity|].
  cbn [getinfovars_loop]. unfold bind at 1.
  destruct (is_callable item); [|apply IH].
  unfold try_except_KeyError, bind at 1.
  pose proof (get_info_state reg item st) as Hst.
  destruct (get_info reg item st) as [[ls|e] s]; simpl in Hst; subst s; simpl.
  - unfold getattr_name. destruct (dunder_name item); simpl; [apply IH|reflexivity].
  - destruct (is_KeyError e); simpl; [apply IH|reflexivity].
Qed.

(** After the singleton has been obtained, the rest of a decoration only
    appends warnings and writes into an existing store. *)
Lemma reg_callable_frame names clb inner st :
  inv st -> inv (snd (_reg_callable names clb inner st)).
Proof.
  intros Hinv.
  pose proof (new_inv Registry_cls [] [] st Hinv) as Hinv'.
  destruct (new_Registry st (proj1 Hinv)) as (reg & st' & Hnew & _ & _ & Hh & _).
  rewrite Hnew in Hinv'. simpl in Hinv'.
  unfold _reg_callable. unfold bind at 1. rewrite Hnew.
  unfold bind at 1. rewrite (contains_run _ _ _ _ Hh).
  apply (frame_inv st' _ Hinv').
  destruct (bool_decide _).
  - unfold getattr_name. destruct (dunder_name (obj clb)); run;
      [|apply frame_refl].
    destruct (sum_bits names 0); simpl; [|apply frame_warned].
    unfold __setitem__. run. rewrite Hh. simpl.
    apply (frame_set_data st'). eauto.
  - run. destruct (sum_bits names 0); simpl; [|apply frame_refl].
    unfold __setitem__. run. rewrite Hh. simpl.
    rewrite <- (state_eta st') at 1. apply (frame_set_data st'). eauto.
Qed.

Lemma getinfo_state clb val st :
  snd (getinfo clb val st) = snd (__new__ Registry_cls [] [] st).
Proof.
  unfold getinfo. unfold bind at 1.
  destruct (__new__ Registry_cls [] [] st) as [[reg|e] st']; [|reflexivity].
  unfold try_except_KeyError, bind. simpl.
  pose proof (get_info_state reg clb st') as Hst.
  destruct (get_info reg clb st') as [[ls|e] s]; simpl in Hst; subst s;
    [reflexivity|].
  destruct (is_KeyError e); [|reflexivity]. now destruct val.
Qed.

Lemma getinfovars_state vs st :
  snd (getinfovars vs st) = snd (__new__ Registry_cls [] [] st).
Proof.
  unfold getinfovars. unfold bind at 1.
  destruct (__new__ Registry_cls [] [] st) as [[reg|e] st']; [|reflexivity].
  apply getinfovars_loop_state.
Qed.

Lemma getinfoiter_state items st :
  snd (getinfoiter items st) = snd (__new__ Registry_cls [] [] st).
Proof.
  unfold getinfoiter. unfold bind at 1.
  destruct (__new__ Registry_cls [] [] st) as [[reg|e] st']; [|reflexivity].
  apply getinfoiter_loop_state.
Qed.

Lemma run_op_inv o st : inv st -> inv (run_op o st).
Proof.
  intros Hinv. destruct o; simpl.
  - now apply new_inv.
  - exact (frame_inv _ _ Hinv (setitem_frame _ _ _ _)).
  - exact (frame_inv _ _ Hinv (delitem_frame _ _ _)).
  - now apply reg_callable_frame.
  - rewrite getinfo_state. now apply new_inv.
  - rewrite getinfovars_state. now apply new_inv.
  - rewrite getinfoiter_state. now apply new_inv.
Qed.

(** X5: the singleton discipline is an invariant of every sequence of
    constructions (with any arguments, of any types), writes, deletions,
    decorations and lookups, whether they return or raise: every cached
    instance keeps its store, and two types never share an instance. *)
Theorem operations_keep_invariant (ops : list op) (st : pystate) :
  inv st -> inv (run_ops ops st).
Proof.
  revert st. induction ops as [|o ops IH]; intros st Hinv; [exact Hinv|].
  simpl. apply IH, run_op_inv, Hinv.
Qed.

Lemma inv_st_empty : inv st_empty.
Proof.
  split.
  - intros c r H. discriminate H.
  - intros c c' r H. discriminate H.
Qed.

Lemma operations_keep_invariant_witness :
  inv (run_ops [Construct "Sub" [VInt 1] []; Construct Registry_cls [] [];
                Decorate ["pure"; "nope"] (plain 1%positive "f") 2%positive;
                Construct "Sub" [] []; SetItem 2%positive 7%positive 5;
                DelItem 1%positive 9%positive;
                ScanIter [obj (plain 7%positive "g")]]
         st_empty).
Proof.
  apply (operations_keep_invariant _ st_empty). exact inv_st_empty.
Defined.

(** ** Decoding and encoding, for every integer *)

Lemma decode_loop_step n c labels :
  decode_loop n c labels =
    if decide (n > 0) then
      match (if decide (n mod 2 = 0) then Ok labels
             else match _LabelEnum_call c with
                  | Ok l => Ok (labels ++ [label_name l])%list
                  | Raise e => Raise e
                  end) with
      | Ok labels' => decode_loop (Z.shiftr n 1) (c + 1) labels'
      | Raise e => Raise e
      end
    else Ok labels.
Proof.
  rewrite decode_loop_equation_1.
  destruct (decide (n > 0)) as [Hpos|Hneg];
    [rewrite decode_loop_clause_1_equation_1
    |now rewrite decode_loop_clause_1_equation_2].
  destruct (decide (n mod 2 = 0));
    [now rewrite decode_loop_clause_1_clause_2_equation_1|].
  destruct (_LabelEnum_call c).
  - now rewrite decode_loop_clause_1_clause_2_equation_1.
  - now rewrite decode_loop_clause_1_clause_2_equation_2.
Qed.

Lemma enum_call_high c : 3 <= c -> _LabelEnum_call c = Raise (ValueError (VInt c)).
Proof.
  intros Hc. unfold _LabelEnum_call, members. simpl.
  repeat (case_bool_decide; [simpl in *; lia|]). reflexivity.
Qed.

Lemma enum_call_low c :
  0 <= c < 3 -> exists l, _LabelEnum_call c = Ok l /\ label_value l = c.
Proof.
  intros Hc. assert (c = 0 \/ c = 1 \/ c = 2) as [-> | [-> | ->]] by lia;
    eexists; split; reflexivity.
Qed.

Lemma shiftr1_pos n : 1 < n -> 0 < Z.shiftr n 1 < n.
Proof.
  intros Hn. rewrite Z.shiftr_div_pow2 by lia. change (2 ^ 1) with 2.
  split; [apply Z.div_str_pos; lia|apply Z.div_lt; lia].
Qed.

Lemma odd_bit0 n : n mod 2 <> 0 -> Z.testbit n 0 = true.
Proof.
  intros Hn. pose proof (Z.bit0_mod n) as Hb.
  destruct (Z.testbit n 0); [reflexivity|]. simpl in Hb. congruence.
Qed.

(** From a counter that is no label value on, the loop stops at the
    first set bit, with the [ValueError] of that counter. *)
Lemma decode_loop_high n :
  0 <= n -> forall c labels, 0 < n -> 3 <= c ->
  exists j, 0 <= j /\ Z.testbit n j = true /\
            decode_loop n c labels = Raise (ValueError (VInt (c + j))).
Proof.
  intros Hn. pattern n. apply Z_lt_induction; [clear n Hn|exact Hn].
  intros n IH c labels Hpos Hc. rewrite decode_loop_step.
  destruct (decide (n > 0)) as [_|]; [|lia].
  destruct (decide (n mod 2 = 0)) as [Heven|Hodd].
  - assert (1 < n).
    { destruct (Z.eq_dec n 1) as [->|]; [discriminate Heven|lia]. }
    destruct (IH (Z.shiftr n 1) ltac:(pose proof (shiftr1_pos n); lia)
                (c + 1) labels) as (j & Hj & Hbit & Hdec);
      [pose proof (shiftr1_pos n); lia|lia|].
    exists (j + 1). split; [lia|]. split.
    + rewrite Z.shiftr_spec in Hbit by lia. exact Hbit.
    + rewrite Hdec. do 3 f_equal. lia.
  - rewrite (enum_call_high c Hc). exists 0. split; [lia|].
    split; [now apply odd_bit0|]. do 3 f_equal. lia.
Qed.

Lemma decode_loop_low n c labels :
  0 < n -> 0 <= c < 3 ->
  exists labels', decode_loop n c labels = decode_loop (Z.shiftr n 1) (c + 1) labels'.
Proof.
  intros Hn Hc. rewrite decode_loop_step.
  destruct (decide (n > 0)) as [_|]; [|lia].
  destruct (decide (n mod 2 = 0)); [eauto|].
  destruct (enum_call_low c Hc) as (l & -> & _). eauto.
Qed.

Lemma decode_nonpos n : n <= 0 -> decode_loop n 0 [] = Ok [].
Proof.
  intros Hn. rewrite decode_loop_step.
  destruct (decide (n > 0)); [lia|reflexivity].
Qed.

Lemma decode_from_8 n :
  8 <= n ->
  exists c, 3 <= c /\ Z.testbit n c = true /\
            decode_loop n 0 [] = Raise (ValueError (VInt c)).
Proof.
  intros Hn.
  assert (H1 : 4 <= Z.shiftr n 1).
  { rewrite Z.shiftr_div_pow2 by lia. change (2 ^ 1) with 2.
    apply Z.div_le_lower_bound; lia. }
  assert (H2 : 2 <= Z.shiftr (Z.shiftr n 1) 1).
  { rewrite (Z.shiftr_div_pow2 (Z.shiftr n 1)) by lia. change (2 ^ 1) with 2.
    apply Z.div_le_lower_bound; lia. }
  assert (H3 : 1 <= Z.shiftr (Z.shiftr (Z.shiftr n 1) 1) 1).
  { rewrite (Z.shiftr_div_pow2 (Z.shiftr (Z.shiftr n 1) 1)) by lia.
    change (2 ^ 1) with 2. apply Z.div_le_lower_bound; lia. }
  destruct (decode_loop_low n 0 [] ltac:(lia) ltac:(lia)) as [l1 ->].
  destruct (decode_loop_low (Z.shiftr n 1) (0 + 1) l1 ltac:(lia) ltac:(lia))
    as [l2 ->].
  destruct (decode_loop_low (Z.shiftr (Z.shiftr n 1) 1) (0 + 1 + 1) l2
              ltac:(lia) ltac:(lia)) as [l3 ->].
  destruct (decode_loop_high (Z.shiftr (Z.shiftr (Z.shiftr n 1) 1) 1)
              ltac:(lia) (0 + 1 + 1 + 1) l3 ltac:(lia) ltac:(lia))
    as (j & Hj & Hbit & ->).
  exists (3 + j). split; [lia|]. split.
  - rewrite !Z.shiftr_spec in Hbit by lia.
    replace (3 + j) with (j + 1 + 1 + 1) by lia. exact Hbit.
  - do 3 f_equal.
Qed.

(** X6: what decoding a stored integer does, for every integer: a
    bitmask that is zero or negative decodes to no label; one between 1
    and 7 to the names of its set bits in ascending order; one from 8 on
    makes [get_info] raise the [ValueError] of [_LabelEnum(c)] for a bit
    [c] of the bitmask that is no label ordinal. *)
Theorem decode_every_integer (n : Z) :
  (n <= 0 -> decode_loop n 0 [] = Ok []) /\
  (0 < n < 8 ->
   decode_loop n 0 [] =
     Ok (map label_name (filter (fun l => has_label n l = true) members))) /\
  (8 <= n ->
   exists c, 3 <= c /\ Z.testbit n c = true /\
             decode_loop n 0 [] = Raise (ValueError (VInt c))).
Proof.
  split; [exact (decode_nonpos n)|]. split; [|exact (decode_from_8 n)].
  intros Hn. apply decode_valid. lia.
Qed.

(** ** The encoder of the decorator *)

Lemma the_registry_some st k n :
  the_registry st !! k = Some n ->
  exists reg, cache st !! Registry_cls = Some reg /\
              heap st !! reg = Some (the_registry st).
Proof.
  unfold the_registry. destruct (cache st !! Registry_cls) as [reg|];
    [|intros H; rewrite lookup_empty in H; discriminate].
  destruct (heap st !! reg) as [d|] eqn:Hd; simpl.
  - intros _. exists reg. split; [reflexivity|exact Hd].
  - intros H. rewrite lookup_empty in H. discriminate.
Qed.

Lemma encode_decode n :
  0 <= n < 8 ->
  sum_bits (map label_name (filter (fun l => has_label n l = true) members)) 0
    = Ok n.
Proof.
  intros Hn.
  assert (n = 0 \/ n = 1 \/ n = 2 \/ n = 3 \/ n = 4 \/ n = 5 \/ n = 6 \/ n = 7)
    as Hcases by lia.
  repeat (destruct Hcases as [->|Hcases]; [reflexivity|]). now subst.
Qed.

(** X7: describing a registered callable whose bitmask lies in 0..7 and
    decorating another function with the names obtained stores that same
    bitmask for the new function. *)
Theorem describe_then_register (f : pyobj) (clb : callable) (inner : ident)
    (st : pystate) (n : Z) :
  wf st -> is_callable f = true -> the_registry st !! oid f = Some n ->
  0 <= n < 8 -> the_registry st !! inner = None ->
  exists names g st1,
    describe f st = (Ok names, st) /\
    register names clb inner st = (Ok g, st1) /\
    the_registry st1 !! inner = Some n /\
    the_registry st1 !! oid f = Some n.
Proof.
  intros Hwf Hcl Hn Hrange Hfresh.
  destruct (the_registry_some _ _ _ Hn) as (reg & Hc & Hh).
  exists (map label_name (filter (fun l => has_label n l = true) members)).
  destruct (reg_callable_run
              (map label_name (filter (fun l => has_label n l = true) members))
              clb inner st n Hwf (encode_decode n Hrange))
    as (reg' & st1 & Hrun & _ & Hc1 & Hh1 & _).
  { now rewrite Hfresh. }
  eexists _, st1. split; [|split; [exact Hrun|]].
  - rewrite (describe_registered f st reg _ n Hcl Hc Hh Hn).
    now rewrite decode_valid.
  - rewrite (the_registry_at _ _ _ Hc1 Hh1). split; [apply lookup_insert_eq|].
    rewrite lookup_insert_ne; [exact Hn|]. intros Heq. rewrite Heq in Hfresh.
    congruence.
Qed.

Lemma describe_then_register_witness :
  exists names g st1,
    describe (obj (plain 2%positive "f")) st_one = (Ok names, st_one) /\
    register names (plain 4%positive "g") 5%positive st_one = (Ok g, st1) /\
    the_registry st1 !! 5%positive = Some 1 /\
    the_registry st1 !! oid (obj (plain 2%positive "f")) = Some 1.
Proof.
  apply (describe_then_register (obj (plain 2%positive "f"))
           (plain 4%positive "g") 5%positive st_one 1).
  - apply (bool_decide_unpack _). vm_compute. exact I.
  - reflexivity.
  - reflexivity.
  - lia.
  - reflexivity.
Defined.

Lemma sum_bits_perm names names' :
  names ≡ₚ names' ->
  forall acc v, sum_bits names acc = Ok v -> sum_bits names' acc = Ok v.
Proof.
  induction 1 as [|x l l' _ IH|x y l|l l' l'' _ IH1 _ IH2]; intros acc v.
  - auto.
  - simpl. destruct (_LabelEnum_getitem x); [apply IH|discriminate].
  - simpl. destruct (_LabelEnum_getitem x) as [lx|], (_LabelEnum_getitem y) as [ly|];
      try discriminate.
    now replace (acc + 2 ^ label_value lx + 2 ^ label_value ly)
      with (acc + 2 ^ label_value ly + 2 ^ label_value lx) by lia.
  - intros H. apply IH2, IH1, H.
Qed.

Lemma reg_callable_ext names names' clb inner st :
  sum_bits names 0 = sum_bits names' 0 ->
  _reg_callable names clb inner st = _reg_callable names' clb inner st.
Proof. intros H. unfold _reg_callable. now rewrite H. Qed.

(** X8: the order in which the names are given to [register] is
    irrelevant: a decoration that succeeds has, with the names permuted,
    the very same outcome, instrumented callable and state. *)
Theorem register_order_irrelevant (names names' : list string)
    (clb : callable) (inner : ident) (st st1 : pystate) (f : callable) :
  wf st -> names ≡ₚ names' ->
  register names clb inner st = (Ok f, st1) ->
  register names' clb inner st = (Ok f, st1).
Proof.
  intros Hwf Hperm Hrun.
  destruct (reg_callable_inv _ _ _ _ _ _ Hwf Hrun) as (_ & v & Hsum & _).
  unfold register. rewrite <- Hrun. symmetry. apply reg_callable_ext.
  rewrite Hsum. symmetry. exact (sum_bits_perm _ _ Hperm 0 v Hsum).
Qed.

Lemma register_order_irrelevant_witness :
  register ["deprecated"; "pure"; "deprecated"] (plain 1%positive "f") 2%positive
      st_empty
    = (Ok inner_pure,
       {| cache := {[Registry_cls := 1%positive]};
          heap := {[1%positive := {[2%positive := 4]}]};
          warned := [] |}).
Proof.
  apply (register_order_irrelevant ["deprecated"; "deprecated"; "pure"]
           ["deprecated"; "pure"; "deprecated"] (plain 1%positive "f")
           2%positive st_empty).
  - vm_compute. intros ? ? H. discriminate H.
  - apply perm_skip, perm_swap.
  - reflexivity.
Defined.

Lemma mask_or_absorb l ls : l ∈ ls -> mask_or (l :: ls) = mask_or ls.
Proof.
  intros Hin. rewrite !mask_or_canon. unfold bit_if.
  destruct l; split_members ls;
    repeat match goal with
           | |- context [decide (?x ∈ ?y :: ls)] =>
               destruct (decide (x ∈ y :: ls)) as [?|?]
           end;
    try reflexivity; mem_contra.
Qed.

Lemma mask_or_cons_le l ls : mask_or (l :: ls) <= 2 ^ label_value l + mask_or ls.
Proof.
  rewrite !mask_or_canon. unfold bit_if.
  destruct l; split_members ls;
    repeat match goal with
           | |- context [decide (?x ∈ ?y :: ls)] =>
               destruct (decide (x ∈ y :: ls)) as [?|?]
           end;
    simpl; try lia; mem_contra.
Qed.

Lemma mask_or_le_sum ls : mask_or ls <= mask_sum ls.
Proof.
  induction ls as [|l ls IH]; [reflexivity|].
  pose proof (mask_or_cons_le l ls). simpl mask_sum. lia.
Qed.

Lemma mask_sum_repeated ls : ~ NoDup ls -> mask_or ls < mask_sum ls.
Proof.
  induction ls as [|l ls IH]; intros Hdup.
  - exfalso. apply Hdup. constructor.
  - simpl mask_sum. destruct (decide (l ∈ ls)) as [Hin|Hnotin].
    + rewrite (mask_or_absorb l ls Hin). pose proof (mask_or_le_sum ls).
      assert (0 < 2 ^ label_value l) by (destruct l; simpl; lia). lia.
    + assert (Hdup' : ~ NoDup ls).
      { intros Hnd. apply Hdup. now constructor. }
      pose proof (IH Hdup'). pose proof (mask_or_cons_le l ls). lia.
Qed.

(** X9: the bitmask that [register] computes for names of the
    enumeration is the sum of their bit values; it is the bitwise OR of
    those bit values exactly when no name is given twice, and it is
    larger otherwise. *)
Theorem sum_is_or_iff_no_repetition (ls : list _LabelEnum) :
  sum_bits (map label_name ls) 0 = Ok (mask_sum ls) /\
  mask_or ls <= mask_sum ls /\
  (sum_bits (map label_name ls) 0 = Ok (mask_or ls) <-> NoDup ls).
Proof.
  split; [apply sum_bits_labels|]. split; [apply mask_or_le_sum|].
  rewrite sum_bits_labels. split.
  - intros Heq. destruct (decide (NoDup ls)) as [|Hdup]; [assumption|].
    pose proof (mask_sum_repeated ls Hdup). injection Heq as Heq. lia.
  - intros Hnd. now rewrite (mask_sum_or ls Hnd).
Qed.

Lemma sum_bits_first_unknown ls nm post acc :
  (forall l, label_name l <> nm) ->
  sum_bits (map label_name ls ++ nm :: post) acc = Raise (KeyError (VStr nm)).
Proof.
  intros Hnm. revert acc. induction ls as [|l ls IH]; intros acc; simpl.
  - destruct (_LabelEnum_getitem nm) as [l|e] eqn:Hget.
    + exfalso. exact (Hnm l (getitem_Ok _ _ Hget)).
    + unfold _LabelEnum_getitem in Hget.
      destruct (find _ members); [discriminate|]. now injection Hget as <-.
  - rewrite getitem_label_name. apply IH.
Qed.

Lemma reg_callable_raise names clb inner st e :
  wf st -> sum_bits names 0 = Raise e ->
  (is_Some (the_registry st !! inner) -> is_Some (dunder_name (obj clb))) ->
  exists st',
    _reg_callable names clb inner st = (Raise e, st') /\
    the_registry st' = the_registry st /\
    warned st' =
      (warned st ++
       match the_registry st !! inner, dunder_name (obj clb) with
       | Some _, Some nm => [already_registered nm]
       | _, _ => []
       end)%list.
Proof.
  intros Hwf Hsum Hname.
  destruct (new_Registry st Hwf) as (reg & st' & Hnew & Hwf' & Hc & Hh & Hw).
  unfold _reg_callable. unfold bind at 1. rewrite Hnew.
  unfold bind at 1. rewrite (contains_run _ _ _ _ Hh).
  destruct (the_registry st !! inner) as [old|] eqn:Hold.
  - destruct Hname as [nm Hnm]; [eauto|]. rewrite Hnm.
    rewrite bool_decide_eq_true_2 by eauto.
    unfold getattr_name. rewrite Hnm. run. rewrite Hsum.
    eexists. split; [reflexivity|]. simpl. split; [|now rewrite Hw].
    apply (the_registry_at {| cache := cache st'; heap := heap st';
                              warned := (warned st' ++ [_])%list |} reg _ Hc Hh).
  - rewrite bool_decide_eq_false_2 by (intros [? ?]; discriminate).
    run. rewrite Hsum. exists st'. split; [reflexivity|].
    split; [exact (the_registry_at _ _ _ Hc Hh)|].
    rewrite Hw. destruct (dunder_name (obj clb)); now rewrite app_nil_r.
Qed.

(** X10: when some name is not in the enumeration, [register] raises
    [KeyError] with the first such name and writes no entry: the store
    of the Registry is as before (the "already registered" warning,
    which precedes the encoding, is issued all the same). *)
Theorem register_unknown_name (ls : list _LabelEnum) (nm : string)
    (post : list string) (clb : callable) (inner : ident) (st : pystate) :
  wf st -> (forall l, label_name l <> nm) ->
  (is_Some (the_registry st !! inner) -> is_Some (dunder_name (obj clb))) ->
  exists st',
    register (map label_name ls ++ nm :: post) clb inner st
      = (Raise (KeyError (VStr nm)), st') /\
    the_registry st' = the_registry st /\
    warned st' =
      (warned st ++
       match the_registry st !! inner, dunder_name (obj clb) with
       | Some _, Some nm => [already_registered nm]
       | _, _ => []
       end)%list.
Proof.
  intros Hwf Hnm Hname.
  apply (reg_callable_raise _ clb inner st _ Hwf); [|exact Hname].
  now apply sum_bits_first_unknown.
Qed.

Lemma register_unknown_name_witness :
  exists st',
    register ["pure"; "fast"; "deprecated"; "slow"] (plain 1%positive "f")
      2%positive st_one
      = (Raise (KeyError (VStr "fast")), st') /\
    the_registry st' = the_registry st_one /\
    warned st' = [already_registered "f"].
Proof.
  apply (register_unknown_name [pure] "fast" ["deprecated"; "slow"]
           (plain 1%positive "f") 2%positive st_one).
  - apply (bool_decide_unpack _). vm_compute. exact I.
  - intros l. destruct l; discriminate.
  - intros _. simpl. eauto.
Defined.

(** ** Lookups on arbitrary registries *)

Lemma decode_below_8 n : n < 8 -> exists labels, decode_loop n 0 [] = Ok labels.
Proof.
  intros Hn. destruct (Z_le_gt_dec n 0).
  - rewrite decode_nonpos by assumption. eauto.
  - rewrite decode_valid by lia. eauto.
Qed.

Lemma get_info_not_callable self clb st :
  is_callable clb = false ->
  get_info self clb st = (Raise (ValueError (VStr "clb must be callable.")), st).
Proof. intros H. unfold get_info. now rewrite H. Qed.

(** X11: a default given to [getinfo] covers a missing entry and nothing
    else: for an argument that is not callable, and for a registered
    callable whose bitmask is 8 or more, [getinfo] raises [ValueError]
    whatever default is supplied. *)
Theorem getinfo_default_covers_only_missing (clb : pyobj) (val : value)
    (st : pystate) :
  wf st ->
  (is_callable clb = false ->
   exists st',
     getinfo clb val st = (Raise (ValueError (VStr "clb must be callable.")), st')) /\
  (is_callable clb = true ->
   forall n, the_registry st !! oid clb = Some n -> 8 <= n ->
   exists c st',
     3 <= c /\ getinfo clb val st = (Raise (ValueError (VInt c)), st')).
Proof.
  intros Hwf. split.
  - intros Hcl.
    destruct (new_Registry st Hwf) as (reg & st' & Hnew & _).
    exists st'. unfold getinfo. unfold bind at 1. rewrite Hnew.
    unfold try_except_KeyError, bind.
    now rewrite (get_info_not_callable _ _ _ Hcl).
  - intros Hcl n Hn Hge.
    destruct (getinfo_run clb val st Hwf Hcl) as (st' & _ & _ & Hrun).
    rewrite Hn in Hrun. destruct (decode_from_8 n Hge) as (c & Hc & _ & Hdec).
    rewrite Hdec in Hrun. eauto.
Qed.

Lemma getinfo_default_covers_only_missing_witness :
  (is_callable (not_callable 8%positive) = false ->
   exists st',
     getinfo (not_callable 8%positive) (VStr "none") st_one
       = (Raise (ValueError (VStr "clb must be callable.")), st')) /\
  (is_callable (not_callable 8%positive) = true ->
   forall n, the_registry st_one !! oid (not_callable 8%positive) = Some n ->
   8 <= n ->
   exists c st',
     3 <= c /\
     getinfo (not_callable 8%positive) (VStr "none") st_one
       = (Raise (ValueError (VInt c)), st')).
Proof.
  apply (getinfo_default_covers_only_missing (not_callable 8%positive)
           (VStr "none") st_one).
  apply (bool_decide_unpack _). vm_compute. exact I.
Defined.

Lemma get_info_outcome_local reg d st item :
  heap st !! reg = Some d -> is_callable item = true ->
  decodable d item ->
  match labels_of d item with
  | Some labels => get_info reg item st = (Ok labels, st) /\ is_Some (d !! oid item)
  | None =>
      d !! oid item = None /\
      exists msg, get_info reg item st = (Raise (KeyError (VStr msg)), st)
  end.
Proof.
  intros Hh Hc Hok. specialize (Hok Hc).
  unfold labels_of. destruct (d !! oid item) as [n|] eqn:Hn.
  - destruct (decode_below_8 n Hok) as [ls Hls]. rewrite Hls.
    rewrite (get_info_registered _ _ _ _ _ Hc Hh Hn). rewrite Hls. eauto.
  - split; [reflexivity|]. apply (get_info_unregistered _ _ _ _ Hc Hok Hh Hn).
Qed.

Lemma decodable_cases d item :
  decodable d item \/
  (is_callable item = true /\
   ((exists n, d !! oid item = Some n /\ 8 <= n) \/
    (d !! oid item = None /\ is_hashable item = false))).
Proof.
  unfold decodable. destruct (is_callable item); [|left; discriminate].
  destruct (d !! oid item) as [n|].
  - destruct (Z_lt_le_dec n 8); [left; auto|right; split; eauto].
  - destruct (is_hashable item); [left; auto|right; split; auto].
Qed.

Lemma not_decodable d item :
  is_callable item = true ->
  (exists n, d !! oid item = Some n /\ 8 <= n) \/
  (d !! oid item = None /\ is_hashable item = false) ->
  ~ decodable d item.
Proof.
  intros Hc Hbad Hok. specialize (Hok Hc).
  destruct Hbad as [(n & Hn & Hge)|[Hn Hu]]; rewrite Hn in Hok.
  - lia.
  - congruence.
Qed.

Lemma decodable_all_cases d items :
  Forall (decodable d) items \/ ~ Forall (decodable d) items.
Proof.
  induction items as [|item items IH]; [left; constructor|].
  destruct (decodable_cases d item) as [Hok|(Hc & Hbad)].
  - destruct IH as [Hall|Hnot]; [left; now constructor|right].
    intros Hall. apply Hnot. now apply Forall_cons in Hall.
  - right. intros Hall. apply Forall_cons in Hall. destruct Hall as [Hok _].
    exact (not_decodable d item Hc Hbad Hok).
Qed.

(** One scan of [getinfoiter]: it goes through when every item is
    decodable, and stops at the first that is not, with the error of
    that item. *)
Lemma getinfoiter_loop_general reg d st items info :
  heap st !! reg = Some d ->
  (Forall (decodable d) items ->
   getinfoiter_loop reg items info st =
     (Ok (collect (fun o => Some (oid o)) d items info), st)) /\
  (~ Forall (decodable d) items ->
   exists e, scan_error e /\
     getinfoiter_loop reg items info st = (Raise e, st)).
Proof.
  intros Hh. revert info. induction items as [|item items IH]; intros info.
  { split; [reflexivity|]. intros Hn. exfalso. apply Hn. constructor. }
  assert (Hloop : getinfoiter_loop reg (item :: items) info st =
            match (if is_callable item
                   then try_except_KeyError
                          (let* labels := get_info reg item in
                           ret (<[oid item := labels]> info)) (fun _ => ret info)
                   else ret info) st with
            | (Ok a, st') => getinfoiter_loop reg items a st'
            | (Raise e, st') => (Raise e, st')
            end) by reflexivity.
  rewrite Hloop. clear Hloop.
  rewrite collect_cons. unfold collect_step.
  destruct (decodable_cases d item) as [Hok|(Hc & Hbad)].
  - assert (Hstep :
      (if is_callable item
       then try_except_KeyError
              (let* labels := get_info reg item in
               ret (<[oid item := labels]> info)) (fun _ => ret info)
       else ret info) st =
      (Ok (if is_callable item
           then match labels_of d item with
                | Some labels => <[oid item := labels]> info
                | None => info
                end
           else info), st)).
    { destruct (is_callable item) eqn:Hc; [|reflexivity].
      pose proof (get_info_outcome_local reg d st item Hh Hc Hok) as Hout.
      unfold try_except_KeyError, bind.
      destruct (labels_of d item) as [ls|].
      - destruct Hout as [-> _]. reflexivity.
      - destruct Hout as (_ & msg & ->). reflexivity. }
    rewrite Hstep.
    destruct (IH (if is_callable item
                  then match labels_of d item with
                       | Some labels => <[oid item := labels]> info
                       | None => info
                       end
                  else info)) as [IHok IHbad].
    split.
    + intros Hall. apply Forall_cons in Hall. destruct Hall as [_ Hall].
      rewrite (IHok Hall). destruct (is_callable item); [|reflexivity].
      now destruct (labels_of d item).
    + intros Hnot. apply IHbad. intros Hall. apply Hnot. now constructor.
  - split.
    { intros Hall. apply Forall_cons in Hall. destruct Hall as [Hok _].
      exfalso. exact (not_decodable d item Hc Hbad Hok). }
    intros _. rewrite Hc. unfold try_except_KeyError, bind.
    destruct Hbad as [(n & Hn & Hge)|[Hn Hu]].
    + rewrite (get_info_registered _ _ _ _ _ Hc Hh Hn).
      destruct (decode_from_8 n Hge) as (c & Hc3 & _ & ->). simpl.
      exists (ValueError (VInt c)). split; [left; eauto|reflexivity].
    + rewrite (get_info_unhashable _ _ _ _ Hc Hu Hh Hn). simpl.
      exists (TypeError "unhashable type"). split; [now right|reflexivity].
Qed.

(** X12: [getinfoiter] returns exactly when every callable item of the
    iterable either has an entry with a bitmask below 8, or has no entry
    and is hashable.  Otherwise it raises, however many other items are
    fine: the [ValueError] of decoding for a bitmask of 8 or more, or
    the [TypeError] of hashing for an unhashable callable, neither of
    which the scan catches.  Entries of callables that are not scanned
    do not matter. *)
Theorem getinfoiter_raises_iff (items : list pyobj) (st : pystate) :
  wf st ->
  (Forall (decodable (the_registry st)) items ->
   exists info st', getinfoiter items st = (Ok info, st')) /\
  (~ Forall (decodable (the_registry st)) items ->
   exists e st',
     scan_error e /\ getinfoiter items st = (Raise e, st')).
Proof.
  intros Hwf.
  destruct (new_Registry st Hwf) as (reg & st' & Hnew & _ & _ & Hh & _).
  destruct (getinfoiter_loop_general reg (the_registry st) st' items ∅ Hh)
    as [Hok Hbad].
  unfold getinfoiter. unfold bind. rewrite Hnew. split.
  - intros Hall. rewrite (Hok Hall). eauto.
  - intros Hnot. destruct (Hbad Hnot) as (e & He & ->). eauto.
Qed.

Lemma getinfoiter_raises_iff_witness :
  (exists info st',
     getinfoiter [obj (plain 2%positive "f"); not_callable 6%positive] st_bad
       = (Ok info, st')) /\
  (exists e st',
     scan_error e /\
     getinfoiter [obj (plain 2%positive "f"); obj (plain 6%positive "g")] st_bad
       = (Raise e, st')) /\
  (exists e st',
     scan_error e /\
     getinfoiter [obj (plain 2%positive "f"); unhashable_callable 7%positive] st_bad
       = (Raise e, st')).
Proof.
  assert (Hwf : wf st_bad) by (apply (bool_decide_unpack _); vm_compute; exact I).
  split; [|split].
  - apply (proj1 (getinfoiter_raises_iff
                    [obj (plain 2%positive "f"); not_callable 6%positive]
                    st_bad Hwf)).
    repeat constructor; intros Hc; vm_compute; try reflexivity; discriminate Hc.
  - apply (proj2 (getinfoiter_raises_iff
                    [obj (plain 2%positive "f"); obj (plain 6%positive "g")]
                    st_bad Hwf)).
    intros Hall. apply Forall_cons in Hall. destruct Hall as [_ Hall].
    apply Forall_cons in Hall. destruct Hall as [Hbad _].
    specialize (Hbad eq_refl). vm_compute in Hbad. discriminate Hbad.
  - apply (proj2 (getinfoiter_raises_iff
                    [obj (plain 2%positive "f"); unhashable_callable 7%positive]
                    st_bad Hwf)).
    intros Hall. apply Forall_cons in Hall. destruct Hall as [_ Hall].
    apply Forall_cons in Hall. destruct Hall as [Hbad _].
    specialize (Hbad eq_refl). vm_compute in Hbad. discriminate Hbad.
Defined.

(** X13: [getinfovars] reads [item.__name__] of every registered
    callable value without a guard: a registered callable that has no
    [__name__] makes the whole scan raise [AttributeError], whereas
    [getinfoiter] over the same object returns its entry. *)
Theorem getinfovars_needs_name (k : string) (item : pyobj)
    (rest : list (string * pyobj)) (st : pystate) (n : Z) :
  wf st -> is_callable item = true -> dunder_name item = None ->
  the_registry st !! oid item = Some n -> n < 8 ->
  (exists st',
     getinfovars ((k, item) :: rest) st = (Raise (AttributeError "__name__"), st')) /\
  (exists info st',
     getinfoiter [item] st = (Ok info, st') /\
     info !! oid item = labels_of (the_registry st) item /\
     is_Some (info !! oid item)).
Proof.
  intros Hwf Hcl Hnm Hn Hlt.
  destruct (new_Registry st Hwf) as (reg & st' & Hnew & _ & _ & Hh & _).
  destruct (decode_below_8 n Hlt) as [ls Hls].
  assert (Hget : get_info reg item st' = (Ok ls, st')).
  { rewrite (get_info_registered _ _ _ _ _ Hcl Hh Hn). now rewrite Hls. }
  assert (Hlab : labels_of (the_registry st) item = Some ls).
  { unfold labels_of. now rewrite Hn, Hls. }
  split.
  - exists st'. unfold getinfovars. unfold bind at 1. rewrite Hnew.
    cbn [map snd getinfovars_loop]. unfold bind at 1. rewrite Hcl.
    unfold try_except_KeyError, bind at 1. rewrite Hget.
    unfold getattr_name. rewrite Hnm. reflexivity.
  - eexists _, st'. split.
    + unfold getinfoiter. unfold bind at 1. rewrite Hnew.
      cbn [getinfoiter_loop]. unfold bind at 1. rewrite Hcl.
      unfold try_except_KeyError, bind at 1. rewrite Hget. reflexivity.
    + rewrite lookup_insert_eq, Hlab. eauto.
Qed.

Lemma getinfovars_needs_name_witness :
  (exists st',
     getinfovars [("p", nameless 6%positive); ("f", obj (plain 2%positive "f"))]
       st_nameless = (Raise (AttributeError "__name__"), st')) /\
  (exists info st',
     getinfoiter [nameless 6%positive] st_nameless = (Ok info, st') /\
     info !! oid (nameless 6%positive)
       = labels_of (the_registry st_nameless) (nameless 6%positive) /\
     is_Some (info !! oid (nameless 6%positive))).
Proof.
  apply (getinfovars_needs_name "p" (nameless 6%positive)
           [("f", obj (plain 2%positive "f"))] st_nameless 5).
  - apply (bool_decide_unpack _). vm_compute. exact I.
  - reflexivity.
  - reflexivity.
  - reflexivity.
  - lia.
Defined.

Lemma collect_oid_lookup d items k labels :
  collect (fun o => Some (oid o)) d items ∅ !! k = Some labels <->
  exists item, item ∈ items /\ is_callable item = true /\
               oid item = k /\ labels_of d item = Some labels.
Proof.
  split.
  - intros Hl.
    destruct (collect_sound _ _ _ _ _ _ Hl) as [He|(item & Hin & Hcl & Hk & Hls)].
    + rewrite lookup_empty in He. discriminate.
    + exists item. injection Hk as Hk. auto.
  - intros (item & Hin & Hcl & Hk & Hls).
    destruct (collect_complete (fun o => Some (oid o)) d items ∅
                item k labels Hin Hcl (f_equal Some Hk) Hls) as [_ Hval].
    apply Hval. intros item' _ _ Hk' ls Hls'. injection Hk' as Hk'.
    rewrite (labels_of_same_oid _ item item') in Hls' by congruence.
    congruence.
Qed.

(** X14: the result of [getinfoiter] depends on the iterable only
    through the set of its items: a scan that returns gives the same
    dictionary, in the same state, for any other iterable with the same
    items, whatever their order and repetitions. *)
Theorem getinfoiter_set_of_items (items items' : list pyobj) (st st' : pystate)
    (info : gmap ident (list string)) :
  wf st -> (forall x, x ∈ items <-> x ∈ items') ->
  getinfoiter items st = (Ok info, st') ->
  getinfoiter items' st = (Ok info, st').
Proof.
  intros Hwf Hsame Hrun.
  destruct (new_Registry st Hwf) as (reg & st1 & Hnew & _ & _ & Hh & _).
  destruct (getinfoiter_loop_general reg (the_registry st) st1 items ∅ Hh)
    as [Hok Hbad].
  destruct (getinfoiter_loop_general reg (the_registry st) st1 items' ∅ Hh)
    as [Hok' _].
  unfold getinfoiter in *. unfold bind in *. rewrite Hnew in *.
  assert (Hall : Forall (decodable (the_registry st)) items).
  { destruct (decodable_all_cases (the_registry st) items)
      as [Hall|Hnot]; [exact Hall|exfalso].
    destruct (Hbad Hnot) as (c & _ & Hraise). rewrite Hraise in Hrun.
    discriminate. }
  assert (Hall' : Forall (decodable (the_registry st)) items').
  { rewrite Forall_forall in *. intros x Hx. apply Hall, Hsame, Hx. }
  rewrite (Hok Hall) in Hrun. injection Hrun as <- <-.
  rewrite (Hok' Hall'). do 2 f_equal. apply map_eq. intros k.
  apply option_eq. intros labels. rewrite !collect_oid_lookup.
  split; intros (item & Hin & Hrest); exists item;
    (split; [apply Hsame, Hin|exact Hrest]).
Qed.

Lemma getinfoiter_set_of_items_witness :
  getinfoiter [obj (plain 3%positive "f"); obj (plain 2%positive "f")] st_two
    = (Ok {[2%positive := ["pure"]; 3%positive := ["deprecated"]]}, st_two).
Proof.
  apply (getinfoiter_set_of_items
           [obj (plain 2%positive "f"); obj (plain 3%positive "f");
            obj (plain 2%positive "f")]
           [obj (plain 3%positive "f"); obj (plain 2%positive "f")] st_two).
  - apply (bool_decide_unpack _). vm_compute. exact I.
  - intros x. rewrite !elem_of_cons, !elem_of_nil. tauto.
  - vm_compute. reflexivity.
Defined.

Lemma collect_app {K} `{Countable K} (key : pyobj -> option K) d l1 l2 info :
  collect key d (l1 ++ l2) info = collect key d l2 (collect key d l1 info).
Proof. unfold collect. apply foldl_app. Qed.

(** X15: when several registered callables of the mapping share a
    display name, the entry of [getinfovars] under that name carries the
    labels of the last of them in iteration order.  The scan returns
    when the bitmasks use bits 0 to 2 only, every registered callable
    value has a [__name__], and every callable value without an entry is
    hashable. *)
Theorem getinfovars_last_wins (vs : list (string * pyobj))
    (pre post : list pyobj) (item : pyobj) (nm : string)
    (labels : list string) (st : pystate) :
  wf st -> registry_valid st ->
  (forall it, it ∈ map snd vs -> is_callable it = true ->
     is_Some (the_registry st !! oid it) -> is_Some (dunder_name it)) ->
  (forall it, it ∈ map snd vs -> is_callable it = true ->
     the_registry st !! oid it = None -> is_hashable it = true) ->
  map snd vs = (pre ++ item :: post)%list ->
  is_callable item = true -> dunder_name item = Some nm ->
  labels_of (the_registry st) item = Some labels ->
  (forall it, it ∈ post -> is_callable it = true ->
     dunder_name it = Some nm -> the_registry st !! oid it = None) ->
  exists info st',
    getinfovars vs st = (Ok info, st') /\ info !! nm = Some labels.
Proof.
  intros Hwf Hvalid Hnamed Hhash Hsplit Hcl Hnm Hls Hlast.
  destruct (new_Registry st Hwf) as (reg & st' & Hnew & _ & _ & Hh & _).
  eexists _, st'. split.
  - unfold getinfovars. unfold bind at 1. rewrite Hnew.
    apply (getinfovars_loop_run reg (the_registry st) st' (map snd vs) ∅
             Hh Hvalid Hnamed Hhash).
  - rewrite Hsplit, collect_app, collect_cons. apply collect_keep.
    + rewrite collect_step_lookup, Hcl, Hls, Hnm. now rewrite decide_True.
    + intros it Hin Hc Hk ls Hls'. exfalso.
      unfold labels_of in Hls'. rewrite (Hlast it Hin Hc Hk) in Hls'.
      discriminate.
Qed.

Lemma getinfovars_last_wins_witness :
  exists info st',
    getinfovars [("a", obj (plain 2%positive "f"));
                 ("b", obj (plain 3%positive "f"));
                 ("c", obj (plain 9%positive "f"))] st_two = (Ok info, st') /\
    info !! "f" = Some ["deprecated"].
Proof.
  apply (getinfovars_last_wins
           [("a", obj (plain 2%positive "f")); ("b", obj (plain 3%positive "f"));
            ("c", obj (plain 9%positive "f"))]
           [obj (plain 2%positive "f")] [obj (plain 9%positive "f")]
           (obj (plain 3%positive "f")) "f" ["deprecated"] st_two).
  - apply (bool_decide_unpack _). vm_compute. exact I.
  - apply (bool_decide_unpack _). vm_compute. exact I.
  - intros it Hin _ _. simpl in Hin.
    repeat (apply elem_of_cons in Hin; destruct Hin as [->|Hin];
            [simpl; eauto|]).
    inversion Hin.
  - intros it Hin _ _. simpl in Hin.
    repeat (apply elem_of_cons in Hin; destruct Hin as [->|Hin];
            [reflexivity|]).
    inversion Hin.
  - reflexivity.
  - reflexivity.
  - reflexivity.
  - reflexivity.
  - intros it Hin _ _. apply elem_of_cons in Hin.
    destruct Hin as [->|Hin]; [reflexivity|inversion Hin].
Defined.

(** ** More on instrumented callables *)

Lemma has_label_testbit n l : has_label n l = Z.testbit n (label_value l).
Proof.
  unfold has_label. rewrite Z.testbit_odd.
  pose proof (Z.bit0_mod (Z.shiftr n (label_value l))) as Hb.
  rewrite Z.bit0_odd in Hb.
  destruct (Z.odd (Z.shiftr n (label_value l))); simpl in Hb; rewrite <- Hb;
    reflexivity.
Qed.

Lemma label_warnings_low_bits n : label_warnings n = label_warnings (n mod 8).
Proof.
  rewrite !label_warnings_unfold, !has_label_testbit.
  change 8 with (2 ^ 3).
  now rewrite !Z.mod_pow2_bits_low by (simpl; lia).
Qed.

(** X16: the shift-and-modulo test of [_inner] is the bit test, for
    every stored integer, negative ones included; so the warnings of an
    invocation depend on the three low bits of the stored value only: a
    value of 8 or more, which [get_info] cannot decode, does not stop the
    instrumented callable from running. *)
Theorem inner_warns_by_low_bits (reg : ref) (clb : behaviour) (self : ident)
    (args : list value) (kwargs : list (string * value)) (st : pystate)
    (d : gmap ident Z) (n : Z) :
  heap st !! reg = Some d -> d !! self = Some n ->
  (forall l, has_label n l = Z.testbit n (label_value l)) /\
  _inner reg clb self args kwargs st =
    clb args kwargs (emit (label_warnings (n mod 8)) st).
Proof.
  intros Hh Hn. split; [intros l; apply has_label_testbit|].
  rewrite <- label_warnings_low_bits.
  exact (inner_registered _ _ _ _ _ _ _ _ Hh Hn).
Qed.

Lemma inner_warns_by_low_bits_witness :
  (forall l, has_label 8 l = Z.testbit 8 (label_value l)) /\
  _inner 1%positive (call (plain 1%positive "f")) 6%positive [] [] st_bad =
    call (plain 1%positive "f") [] [] (emit (label_warnings (8 mod 8)) st_bad).
Proof.
  apply (inner_warns_by_low_bits 1%positive (call (plain 1%positive "f"))
           6%positive [] [] st_bad {[2%positive := 2; 6%positive := 8]} 8);
    reflexivity.
Defined.

Lemma reg_callable_cache names clb inner st :
  wf st ->
  cache (snd (_reg_callable names clb inner st))
    = cache (snd (__new__ Registry_cls [] [] st)).
Proof.
  intros Hwf.
  destruct (new_Registry st Hwf) as (reg & st' & Hnew & _ & _ & Hh & _).
  unfold _reg_callable. unfold bind at 1. rewrite Hnew.
  unfold bind at 1. rewrite (contains_run _ _ _ _ Hh).
  destruct (bool_decide _).
  - unfold getattr_name. destruct (dunder_name (obj clb)); run; [|reflexivity].
    destruct (sum_bits names 0); simpl; [|reflexivity].
    unfold __setitem__. run. now rewrite Hh.
  - run. destruct (sum_bits names 0); simpl; [|reflexivity].
    unfold __setitem__. run. now rewrite Hh.
Qed.

(** X17: decorators stack.  Decorating the result of a decoration gives
    a callable that issues the warnings of the outer registration, then
    those of the inner one, then calls the original; both function
    objects are registered, and the outer one carries the original's
    [__name__]. *)
Theorem stacked_decorators (names1 names2 : list string) (clb : callable)
    (inner1 inner2 : ident) (st : pystate) (v1 v2 : Z) :
  wf st -> sum_bits names1 0 = Ok v1 -> sum_bits names2 0 = Ok v2 ->
  the_registry st !! inner1 = None -> inner1 <> inner2 ->
  exists f1 st1 f2 st2,
    register names1 clb inner1 st = (Ok f1, st1) /\
    register names2 f1 inner2 st1 = (Ok f2, st2) /\
    the_registry st2 !! inner1 = Some v1 /\
    the_registry st2 !! inner2 = Some v2 /\
    dunder_name (obj f2) = Some (default "_inner" (dunder_name (obj clb))) /\
    forall args kwargs,
      call f2 args kwargs st2 =
        call clb args kwargs
          (emit (label_warnings v2 ++ label_warnings v1) st2).
Proof.
  intros Hwf Hs1 Hs2 Hfresh Hne.
  destruct (reg_callable_run names1 clb inner1 st v1 Hwf Hs1)
    as (reg & st1 & Hrun1 & Hwf1 & Hc1 & Hh1 & _).
  { now rewrite Hfresh. }
  set (f1 := {| obj := wraps (obj clb) inner1;
                call := _inner reg (call clb) inner1 |}) in *.
  destruct (reg_callable_run names2 f1 inner2 st1 v2 Hwf1 Hs2)
    as (reg' & st2 & Hrun2 & Hwf2 & Hc2 & Hh2 & _).
  { destruct (the_registry st1 !! inner2); simpl; eauto. }
  assert (reg' = reg) as ->.
  { pose proof (reg_callable_cache names2 f1 inner2 st1 Hwf1) as Hcache.
    rewrite Hrun2, (new_cached _ _ _ _ _ Hc1) in Hcache. simpl in Hcache.
    rewrite Hcache, Hc1 in Hc2. now injection Hc2. }
  rewrite (the_registry_at _ _ _ Hc1 Hh1) in Hh2.
  exists f1, st1. eexists _, st2.
  split; [exact Hrun1|]. split; [exact Hrun2|].
  rewrite (the_registry_at _ _ _ Hc2 Hh2).
  split; [rewrite lookup_insert_ne by congruence; apply lookup_insert_eq|].
  split; [apply lookup_insert_eq|]. split; [reflexivity|].
  intros args kwargs. cbn [call].
  rewrite (inner_registered reg (call f1) inner2 args kwargs st2 _ v2 Hh2
             (lookup_insert_eq _ _ _)).
  unfold f1 at 1. cbn [call].
  rewrite (inner_registered reg (call clb) inner1 args kwargs
             (emit (label_warnings v2) st2) _ v1 Hh2).
  - now rewrite emit_emit.
  - rewrite lookup_insert_ne by congruence. apply lookup_insert_eq.
Qed.

Lemma stacked_decorators_witness :
  exists f1 st1 f2 st2,
    register ["deprecated"] (plain 1%positive "f") 2%positive st_empty = (Ok f1, st1) /\
    register ["pure"] f1 3%positive st1 = (Ok f2, st2) /\
    the_registry st2 !! 2%positive = Some 1 /\
    the_registry st2 !! 3%positive = Some 2 /\
    dunder_name (obj f2) = Some "f" /\
    forall args kwargs,
      call f2 args kwargs st2 =
        call (plain 1%positive "f") args kwargs
          (emit (label_warnings 2 ++ label_warnings 1) st2).
Proof.
  apply (stacked_decorators ["deprecated"] ["pure"] (plain 1%positive "f")
           2%positive 3%positive st_empty 1 2).
  - vm_compute. intros ? ? H. discriminate H.
  - reflexivity.
  - reflexivity.
  - reflexivity.
  - discriminate.
Defined.

(** X18: a function object made by [register] always has a [__name__],
    the original's when it has one: once its entry is gone, describing
    it raises the [KeyError] whose message names that [__name__], never
    the anonymous "Callable not in Registry." *)
Theorem unregistered_wrapper_is_named (names : list string) (clb : callable)
    (inner : ident) (st st1 st2 : pystate) (f : callable) :
  wf st -> register names clb inner st = (Ok f, st1) ->
  wf st2 -> the_registry st2 !! inner = None ->
  exists st3,
    describe (obj f) st2 =
      (Raise (KeyError (VStr ("Callable ("
                              ++ default "_inner" (dunder_name (obj clb))
                              ++ ") not in Registry."))), st3).
Proof.
  intros Hwf Hrun Hwf2 Hgone.
  destruct (reg_callable_inv _ _ _ _ _ _ Hwf Hrun) as (reg & v & _ & -> & _).
  destruct (new_Registry st2 Hwf2) as (reg2 & st3 & Hnew & _ & _ & Hh & _).
  exists st3. unfold describe, bind. rewrite Hnew.
  unfold get_info. cbn [obj wraps is_callable negb oid dunder_name]. run.
  now rewrite Hh, Hgone.
Qed.

Lemma unregistered_wrapper_is_named_witness :
  exists st3,
    describe (obj inner_pure) st_empty =
      (Raise (KeyError (VStr ("Callable ("
                              ++ default "_inner"
                                   (dunder_name (obj (plain 1%positive "f")))
                              ++ ") not in Registry."))), st3).
Proof.
  apply (unregistered_wrapper_is_named ["pure"] (plain 1%positive "f")
           2%positive st_empty st_pure st_empty inner_pure).
  - vm_compute. intros ? ? H. discriminate H.
  - reflexivity.
  - vm_compute. intros ? ? H. discriminate H.
  - reflexivity.
Defined.

(** ** check_signature, exactly *)

Lemma FullArgSpec_eq (a b : FullArgSpec) :
  annotations a = annotations b -> args a = args b ->
  varargs a = varargs b -> varkw a = varkw b -> defaults a = defaults b ->
  kwonlyargs a = kwonlyargs b -> kwonlydefaults a = kwonlydefaults b -> a = b.
Proof. destruct a, b. simpl. intros. now subst. Qed.

Lemma check_signature_outcome clb expected gfas hints :
  getfullargspec clb = Ok gfas -> get_type_hints clb = Ok hints ->
  (check_signature clb expected = Ok tt /\
   (expected = gfas /\ annotations gfas = hints)) \/
  (check_signature clb expected = Raise AssertionError /\
   ~ (expected = gfas /\ annotations gfas = hints)).
Proof.
  intros Hspec Hhints. unfold check_signature. rewrite Hspec, Hhints.
  unfold assert. fold all_attrs. rewrite check_attrs_outcome.
  case_bool_decide as Ha.
  - case_bool_decide as Hall.
    + left. split; [reflexivity|]. apply all_attrs_equal in Hall.
      assert (expected = gfas) as -> by (apply FullArgSpec_eq; tauto).
      now split.
    + right. split; [reflexivity|]. intros [-> _]. apply Hall.
      apply all_attrs_equal. repeat split.
  - right. split; [reflexivity|]. intros [-> Hraw]. contradiction.
Qed.

(** X19: when introspection succeeds, [check_signature] passes for
    exactly one expectation, the introspected argument specification
    itself, and only if the raw annotations of the callable coincide with
    its resolved type hints; every other expectation fails with a bare
    [AssertionError]. *)
Theorem check_signature_passes_iff (clb : function) (expected gfas : FullArgSpec)
    (hints : gmap string value) :
  getfullargspec clb = Ok gfas -> get_type_hints clb = Ok hints ->
  (check_signature clb expected = Ok tt <->
   expected = gfas /\ annotations gfas = hints) /\
  (check_signature clb expected <> Ok tt ->
   check_signature clb expected = Raise AssertionError).
Proof.
  intros Hspec Hhints.
  destruct (check_signature_outcome clb expected gfas hints Hspec Hhints)
    as [[Hok Hyes]|[Hraise Hno]].
  - split; [split; auto|]. intros Hne. contradiction.
  - split; [|intros _; exact Hraise]. split; [|intros; contradiction].
    intros Hok. rewrite Hraise in Hok. discriminate.
Qed.

Lemma check_signature_passes_iff_witness :
  (check_signature fun_f spec_f_wrong_varkw = Ok tt <->
   spec_f_wrong_varkw = spec_f /\ annotations spec_f = {["a" := VType "int"]}) /\
  (check_signature fun_f spec_f_wrong_varkw <> Ok tt ->
   check_signature fun_f spec_f_wrong_varkw = Raise AssertionError).
Proof.
  apply (check_signature_passes_iff fun_f spec_f_wrong_varkw spec_f
           {["a" := VType "int"]}); reflexivity.
Defined.

(** X20: for a callable whose raw annotations differ from its resolved
    type hints, as for every annotated function of a module that
    postpones the evaluation of annotations, [check_signature] fails
    whatever is expected: no expectation can equal both. *)
Theorem check_signature_postponed_annotations (clb : function)
    (gfas : FullArgSpec) (hints : gmap string value) :
  getfullargspec clb = Ok gfas -> get_type_hints clb = Ok hints ->
  annotations gfas <> hints ->
  forall expected, check_signature clb expected = Raise AssertionError.
Proof.
  intros Hspec Hhints Hraw expected.
  destruct (check_signature_outcome clb expected gfas hints Hspec Hhints)
    as [[_ [_ Heq]]|[Hraise _]]; [contradiction|exact Hraise].
Qed.

Lemma check_signature_postponed_annotations_witness :
  check_signature fun_f_postponed spec_f = Raise AssertionError /\
  check_signature fun_f_postponed spec_f_postponed = Raise AssertionError.
Proof.
  assert (Hraw : annotations spec_f_postponed <> {["a" := VType "int"]}).
  { intros H. apply (f_equal (fun m => m !! "a")) in H. vm_compute in H.
    discriminate H. }
  split;
    apply (check_signature_postponed_annotations fun_f_postponed spec_f_postponed
             {["a" := VType "int"]} eq_refl eq_refl Hraw).
Defined.

(** ** check_properties *)

Section CheckProperties.
Context {O : Type} (C : attr_ops O).

Lemma hasattr_assert_ok (obj : O) (name : string) :
  res_bind (py_hasattr C obj name) assert = Ok tt ->
  exists v, py_getattr C obj name = Ok v.
Proof.
  unfold py_hasattr. destruct (py_getattr C obj name) as [v|e]; [eauto|].
  destruct e; discriminate.
Qed.

(** One iteration, once [hasattr] has held: the handler of [getattr] is
    not reached, so the gettable claims play no part. *)
Lemma check_props_loop_cons g s d prop rest (obj : O) p_ v :
  py_getattr C obj prop = Ok v ->
  check_props_loop C g s d (prop :: rest) obj p_ =
    match tolerate (fst (py_setattr C obj prop v)) (bool_decide (prop ∈ s)) with
    | Raise e => (Raise e, snd (py_setattr C obj prop v))
    | Ok _ =>
        match tolerate (fst (py_delattr C (snd (py_setattr C obj prop v)) prop))
                (bool_decide (prop ∈ d)) with
        | Raise e =>
            (Raise e, snd (py_delattr C (snd (py_setattr C obj prop v)) prop))
        | Ok _ =>
            check_props_loop C g s d rest
              (snd (py_delattr C (snd (py_setattr C obj prop v)) prop)) (Some v)
        end
    end.
Proof.
  intros Hget. cbn [check_props_loop]. unfold py_hasattr. rewrite Hget. simpl.
  destruct (py_setattr C obj prop v) as [r1 obj1]. simpl.
  destruct (tolerate r1 _); [|reflexivity].
  now destruct (py_delattr C obj1 prop) as [r2 obj2].
Qed.

Lemma check_props_loop_absent g s d prop rest (obj : O) p_ e :
  py_getattr C obj prop = Raise e ->
  exists e', check_props_loop C g s d (prop :: rest) obj p_ = (Raise e', obj) /\
             forall g' s' d' p_',
               check_props_loop C g' s' d' (prop :: rest) obj p_' = (Raise e', obj).
Proof.
  intros Hget. cbn [check_props_loop]. unfold py_hasattr. rewrite Hget.
  destruct e; simpl; eauto.
Qed.

Lemma check_props_loop_gettable g g' s d props (obj : O) p_ p_' :
  check_props_loop C g s d props obj p_ = check_props_loop C g' s d props obj p_'.
Proof.
  revert obj p_ p_'. induction props as [|prop rest IH]; intros obj p_ p_';
    [reflexivity|].
  destruct (py_getattr C obj prop) as [v|e] eqn:Hget.
  - rewrite !(check_props_loop_cons _ _ _ _ _ _ _ v Hget).
    destruct (tolerate _ _); [|reflexivity].
    destruct (tolerate _ _); [|reflexivity]. apply IH.
  - destruct (check_props_loop_absent g s d prop rest obj p_ e Hget)
      as (e' & -> & Hall). now rewrite Hall.
Qed.

Lemma tolerate_fewer r (claimed claimed' : bool) :
  (claimed' = true -> claimed = true) ->
  tolerate r claimed = Ok tt -> tolerate r claimed' = Ok tt.
Proof.
  intros Himp. destruct r as [|e]; [auto|]. destruct e; simpl; auto.
  destruct claimed; [discriminate|]. destruct claimed'; [|auto].
  now specialize (Himp eq_refl).
Qed.

Lemma claim_mono (p : string) (l l' : list string) :
  (p ∈ l' -> p ∈ l) ->
  bool_decide (p ∈ l') = true -> bool_decide (p ∈ l) = true.
Proof.
  intros Himp Hb. apply bool_decide_eq_true. apply Himp.
  now apply bool_decide_eq_true in Hb.
Qed.

Lemma check_props_loop_fewer g g' s s' d d' props (obj obj' : O) p_ p_' :
  (forall p, p ∈ s' -> p ∈ s) -> (forall p, p ∈ d' -> p ∈ d) ->
  check_props_loop C g s d props obj p_ = (Ok tt, obj') ->
  check_props_loop C g' s' d' props obj p_' = (Ok tt, obj').
Proof.
  intros Hs Hd. revert obj p_ p_'.
  induction props as [|prop rest IH]; intros obj p_ p_'; [auto|].
  destruct (py_getattr C obj prop) as [v|e] eqn:Hget.
  - rewrite !(check_props_loop_cons _ _ _ _ _ _ _ v Hget).
    destruct (tolerate _ (bool_decide (prop ∈ s))) as [[]|] eqn:H1;
      [|discriminate].
    rewrite (tolerate_fewer _ _ (bool_decide (prop ∈ s'))
               (claim_mono prop s s' (Hs prop)) H1).
    destruct (tolerate _ (bool_decide (prop ∈ d))) as [[]|] eqn:H2;
      [|discriminate].
    rewrite (tolerate_fewer _ _ (bool_decide (prop ∈ d'))
               (claim_mono prop d d' (Hd prop)) H2).
    apply IH.
  - destruct (check_props_loop_absent g s d prop rest obj p_ e Hget)
      as (e' & -> & _). discriminate.
Qed.

Lemma check_props_loop_wear g s d props (obj obj' : O) p_ :
  check_props_loop C g s d props obj p_ = (Ok tt, obj') ->
  obj' = foldl (set_and_delete C) obj props.
Proof.
  revert obj p_. induction props as [|prop rest IH]; intros obj p_.
  - intros H. now injection H.
  - destruct (py_getattr C obj prop) as [v|e] eqn:Hget.
    + rewrite (check_props_loop_cons _ _ _ _ _ _ _ v Hget).
      destruct (tolerate _ _); [|discriminate].
      destruct (tolerate _ _); [|discriminate].
      intros H. rewrite (IH _ _ H). cbn [foldl]. f_equal.
      unfold set_and_delete. now rewrite Hget.
    + destruct (check_props_loop_absent g s d prop rest obj p_ e Hget)
        as (e' & -> & _). discriminate.
Qed.

(** X21: the slots check lets an object through only if it has exactly one of
    [__slots__] and [__dict__]: an object that has both, or neither,
    fails [check_properties] with [AssertionError] whether a slots list
    is expected or not, before any attribute is touched. *)
Theorem check_properties_layout_gate (obj : O) (b : bool)
    (g s d : list string) (slots : option (list string)) (props : list string) :
  py_hasattr C obj "__slots__" = Ok b -> py_hasattr C obj "__dict__" = Ok b ->
  check_properties C obj g s d slots props = (Raise AssertionError, obj).
Proof.
  intros Hs Hd. unfold check_properties, check_layout.
  destruct slots as [l|]; rewrite Hs; simpl; destruct b; simpl;
    rewrite ?Hd; reflexivity.
Qed.

(** X22: a gettable claim matters only through the set of checked
    names.  [hasattr] is asserted for every checked name, so the
    [getattr] that follows cannot fail, and the test
    [prop in gettable_props] is never reached.  Two lists of gettable
    names that, together with the settable and deletable ones, make up
    the same set of checked names give the same outcome along an
    iteration order of that set. *)
Theorem check_properties_ignores_gettable (obj : O)
    (g g' s d : list string) (slots : option (list string))
    (props : list string) :
  iteration_of props g s d -> iteration_of props g' s d ->
  check_properties C obj g s d slots props
    = check_properties C obj g' s d slots props.
Proof.
  intros _ _.
  unfold check_properties. destruct (check_layout C obj slots); [|reflexivity].
  apply check_props_loop_gettable.
Qed.

(** X23: claims can only make the check stricter.  If the check passes
    with some settable and deletable claims, it passes, leaving the
    object in the same condition, with any fewer claims checked along
    the same iteration order. *)
Theorem check_properties_fewer_claims (obj obj' : O)
    (g g' s s' d d' : list string) (slots : option (list string))
    (props : list string) :
  (forall p, p ∈ s' -> p ∈ s) -> (forall p, p ∈ d' -> p ∈ d) ->
  check_properties C obj g s d slots props = (Ok tt, obj') ->
  check_properties C obj g' s' d' slots props = (Ok tt, obj').
Proof.
  intros Hs Hd. unfold check_properties.
  destruct (check_layout C obj slots); [|discriminate].
  now apply check_props_loop_fewer.
Qed.

(** X24: the check consumes what it checks.  A passing run leaves the
    object as it is after writing back and then deleting every checked
    attribute, in iteration order, whatever was claimed. *)
Theorem check_properties_wears_object (obj obj' : O)
    (g s d : list string) (slots : option (list string)) (props : list string) :
  check_properties C obj g s d slots props = (Ok tt, obj') ->
  obj' = foldl (set_and_delete C) obj props.
Proof.
  unfold check_properties. destruct (check_layout C obj slots); [|discriminate].
  apply check_props_loop_wear.
Qed.

End CheckProperties.

Lemma check_properties_layout_gate_witness :
  check_properties plain_object obj_both ["x"] [] [] (Some ["x"]) ["x"]
    = (Raise AssertionError, obj_both).
Proof.
  apply (check_properties_layout_gate plain_object obj_both true);
    reflexivity.
Defined.

Lemma check_properties_ignores_gettable_witness :
  check_properties plain_object obj_xy ["x"; "y"] ["x"] ["y"] None ["x"; "y"]
    = check_properties plain_object obj_xy ["y"] ["x"] ["y"] None ["x"; "y"].
Proof.
  apply (check_properties_ignores_gettable plain_object obj_xy
           ["x"; "y"] ["y"] ["x"] ["y"] None ["x"; "y"]).
  - split; [apply (bool_decide_unpack _); vm_compute; exact I|].
    intros p. simpl. rewrite !elem_of_cons, !elem_of_nil. tauto.
  - split; [apply (bool_decide_unpack _); vm_compute; exact I|].
    intros p. simpl. rewrite !elem_of_cons, !elem_of_nil. tauto.
Defined.

Lemma check_properties_fewer_claims_witness :
  check_properties plain_object obj_xy ["x"] [] ["y"] None ["x"; "y"]
    = (Ok tt, {["__dict__" := VNone]}).
Proof.
  apply (check_properties_fewer_claims plain_object obj_xy {["__dict__" := VNone]}
           [] ["x"] ["x"] [] ["x"; "y"] ["y"]).
  - intros p Hp. inversion Hp.
  - intros p Hp. now apply list_elem_of_further.
  - vm_compute. reflexivity.
Defined.

Lemma check_properties_wears_object_witness :
  ({["__dict__" := VNone]} : gmap string value)
    = foldl (set_and_delete plain_object) obj_xy ["x"; "y"].
Proof.
  apply (check_properties_wears_object plain_object obj_xy {["__dict__" := VNone]}
           ["x"] ["x"; "y"] [] None ["x"; "y"]).
  vm_compute. reflexivity.
Defined.

Lemma plain_loop_present g s d props (obj : gmap string value) p_ :
  NoDup props -> (forall p, p ∈ props -> is_Some (obj !! p)) ->
  check_props_loop plain_object g s d props obj p_ =
    (Ok tt, foldl (fun o p => delete p o) obj props).
Proof.
  revert obj p_. induction props as [|prop rest IH]; intros obj p_ Hnd Hall;
    [reflexivity|].
  apply NoDup_cons in Hnd. destruct Hnd as [Hnotin Hnd].
  destruct (Hall prop (list_elem_of_here _ _)) as [v Hv].
  rewrite (check_props_loop_cons plain_object g s d prop rest obj p_ v)
    by (simpl; now rewrite Hv).
  simpl. rewrite lookup_insert_eq. simpl. rewrite delete_insert_eq.
  apply IH; [assumption|]. intros p Hp.
  rewrite lookup_delete_ne by (intros ->; contradiction).
  apply Hall. now apply list_elem_of_further.
Qed.

Lemma plain_loop_fails g s d props (obj : gmap string value) p_ p :
  p ∈ props -> obj !! p = None ->
  exists obj', check_props_loop plain_object g s d props obj p_
                 = (Raise AssertionError, obj').
Proof.
  revert obj p_. induction props as [|q rest IH]; intros obj p_ Hin Habs;
    [inversion Hin|].
  destruct (obj !! q) as [v|] eqn:Hq.
  - rewrite (check_props_loop_cons plain_object g s d q rest obj p_ v)
      by (simpl; now rewrite Hq).
    simpl. rewrite lookup_insert_eq. simpl.
    apply IH.
    + apply elem_of_cons in Hin. destruct Hin as [->|Hin]; [congruence|assumption].
    + rewrite delete_insert_eq. apply lookup_delete_None. now right.
  - eexists. cbn [check_props_loop]. unfold py_hasattr. simpl.
    rewrite Hq. reflexivity.
Qed.

Lemma foldl_delete_none (props : list string) (o : gmap string value) p :
  o !! p = None -> foldl (fun o q => delete q o) o props !! p = None.
Proof.
  revert o. induction props as [|q rest IH]; intros o Ho; [exact Ho|].
  simpl. apply IH. apply lookup_delete_None. now right.
Qed.

Lemma foldl_delete_lookup (props : list string) (obj : gmap string value) p :
  p ∈ props -> foldl (fun o q => delete q o) obj props !! p = None.
Proof.
  revert obj. induction props as [|q rest IH]; intros obj Hin; [inversion Hin|].
  simpl. apply elem_of_cons in Hin. destruct Hin as [->|Hin]; [|now apply IH].
  apply foldl_delete_none, lookup_delete_eq.
Qed.

(** X25: on an ordinary object, one with a [__dict__], no [__slots__]
    and plain instance attributes, [check_properties] without expected
    slots passes when every claimed name is an attribute of the object,
    whatever roles are claimed, and the passing run has deleted every
    claimed attribute from the object; when a claimed name is missing,
    the check fails with [AssertionError]. *)
Theorem check_properties_ordinary_object (obj : gmap string value)
    (g s d props : list string) :
  iteration_of props g s d ->
  is_Some (obj !! "__dict__") -> obj !! "__slots__" = None ->
  ((forall p, p ∈ (g ++ s ++ d)%list -> is_Some (obj !! p)) ->
   check_properties plain_object obj g s d None props =
     (Ok tt, foldl (fun o p => delete p o) obj props) /\
   forall p, p ∈ (g ++ s ++ d)%list ->
     foldl (fun o p => delete p o) obj props !! p = None) /\
  (forall p, p ∈ (g ++ s ++ d)%list -> obj !! p = None ->
   exists obj',
     check_properties plain_object obj g s d None props
       = (Raise AssertionError, obj')).
Proof.
  intros [Hnd Hiter] [vd Hdict] Hslots.
  assert (Hlayout : check_layout plain_object obj None = Ok tt).
  { unfold check_layout, py_hasattr. simpl. now rewrite Hslots, Hdict. }
  unfold check_properties. rewrite Hlayout. split.
  - intros Hall. split.
    + apply plain_loop_present; [assumption|].
      intros p Hp. apply Hall, Hiter, Hp.
    + intros p Hp. apply foldl_delete_lookup, Hiter, Hp.
  - intros p Hp Habs. apply (plain_loop_fails g s d props obj None p);
      [apply Hiter, Hp|exact Habs].
Qed.

Lemma check_properties_ordinary_object_witness :
  ((forall p, p ∈ (["x"] ++ ["y"] ++ ["x"])%list -> is_Some (obj_xy !! p)) ->
   check_properties plain_object obj_xy ["x"] ["y"] ["x"] None ["y"; "x"] =
     (Ok tt, foldl (fun o p => delete p o) obj_xy ["y"; "x"]) /\
   forall p, p ∈ (["x"] ++ ["y"] ++ ["x"])%list ->
     foldl (fun o p => delete p o) obj_xy ["y"; "x"] !! p = None) /\
  (forall p, p ∈ (["x"] ++ ["y"] ++ ["x"])%list -> obj_xy !! p = None ->
   exists obj',
     check_properties plain_object obj_xy ["x"] ["y"] ["x"] None ["y"; "x"]
       = (Raise AssertionError, obj')).
Proof.
  apply (check_properties_ordinary_object obj_xy ["x"] ["y"] ["x"] ["y"; "x"]).
  - split.
    + repeat (apply NoDup_cons; split;
              [intros H; repeat (apply elem_of_cons in H; destruct H as [H|H];
                                 [discriminate|]); inversion H|]).
      apply NoDup_nil_2.
    + intros p. simpl. rewrite !elem_of_cons, !elem_of_nil. tauto.
  - vm_compute. eauto.
  - reflexivity.
Defined.
